(** * aibrix: sliding-window metric clients and the metric store refresh

    A shallow embedding of
    - the autoscaler metric clients ([PodMetricClient], [KPAMetricsClient],
      [APAMetricsClient]),
    - the gateway cache store refresh ([getPodMetricRefreshInterval],
      [updatePodMetrics], [updatePodRecordLocked], [initTraceCache]),
    together with the properties the design document states about them.

    Conventions.  A [time.Time] is its Unix time in nanoseconds, a
    [time.Duration] a number of nanoseconds; a [float64] is a primitive
    binary64 float; a Go map is a [gmap]; a Go [error] is a value of an
    inductive type that records what the message is formatted from, [None]
    standing for [nil]; a [panic] is the [Panicked] outcome. *)

From Stdlib Require Import ZArith Ascii Floats Uint63.
From stdpp Require Import gmap strings list.

Set Default Proof Using "Type".
Local Open Scope Z_scope.

(** ** Go runtime notions *)

Module Go.

(** What a call does: it returns, or it panics. *)
Inductive outcome (A : Type) : Type :=
| Returned (a : A)
| Panicked (msg : string).
Global Arguments Returned {A} a.
Global Arguments Panicked {A} msg.

(** Sequencing: a panic unwinds through the calls after it. *)
#[global] Instance outcome_ret : MRet outcome := fun A a => Returned a.
#[global] Instance outcome_bind : MBind outcome := fun A B k m =>
  match m with
  | Returned a => k a
  | Panicked msg => Panicked msg
  end.

Definition returns {A} (m : outcome A) : Prop := exists a, m = Returned a.

(** [int] and [int64] on the 64-bit platforms: two's complement. *)
Definition minInt64 : Z := - 2 ^ 63.
Definition maxInt64 : Z := 2 ^ 63 - 1.
Definition wrap64 (z : Z) : Z := (z + 2 ^ 63) mod 2 ^ 64 - 2 ^ 63.
Definition inInt64 (z : Z) : bool := (minInt64 <=? z) && (z <=? maxInt64).

(** [float64(n)] for a small count [n]. *)
Definition float64_of_int (n : Z) : float := PrimFloat.of_uint63 (Uint63.of_Z n).

End Go.

Module time.
Definition Time := Z.
Definition Duration := Z.
Definition Nanosecond : Duration := 1.
Definition Millisecond : Duration := 1000000.
Definition Second : Duration := 1000000000.
Definition Minute : Duration := 60 * Second.
End time.

(** ** Sliding time window *)

Module aggregation.
Import time.

Inductive error := EmptyWindow.

Inductive result (A : Type) := Ok (a : A) | Err (e : error).
Global Arguments Ok {A} a.
Global Arguments Err {A} e.

(** What the metric clients use of a [*aggregation.TimeWindow]:
    [NewTimeWindow(duration, granularity)], [window.Record(now, value)] and
    [window.Avg()].  A window is mutated in place and reached through one
    map entry only, so [Record] returns the window after the call.  [Avg]
    takes no argument. *)
Class TimeWindowImpl := {
  TimeWindow : Type;
  NewTimeWindow : Duration -> Duration -> TimeWindow;
  Record : TimeWindow -> Time -> float -> TimeWindow;
  Avg : TimeWindow -> result float;
}.

(** *** The bucketed window of the design document *)

(** Modelled from the spec: the package [aggregation] is not among the
    sources.  A bucket holds (bucket-start-timestamp, recorded-value,
    populated-flag). *)
Record bucket := Bucket {
  bucketStart : Time;
  bucketValue : float;
  populated : bool;
}.

(** Modelled from the spec: [TimeWindow] owns [duration] (total span),
    [granularity] (bucket width) and a fixed-size ring of
    [duration/granularity] buckets. *)
Record ring := Ring {
  duration : Duration;
  granularity : Duration;
  buckets : list bucket;
}.

(** Modelled from the spec: a bucket nothing was recorded into. *)
Definition emptyBucket : bucket := Bucket 0 0 false.

(** Modelled from the spec: the number of buckets, [duration/granularity]. *)
Definition bucketCount (d g : Duration) : Z := d / g.

(** Modelled from the spec: a new window has [duration/granularity]
    buckets, none populated. *)
Definition newRing (d g : Duration) : ring :=
  Ring d g (replicate (Z.to_nat (bucketCount d g)) emptyBucket).

(** Modelled from the spec: the bucket index of a timestamp,
    [floor(timestamp/granularity) mod bucketCount]. *)
Definition bucketIndex (w : ring) (timestamp : Time) : Z :=
  (timestamp / granularity w) mod Z.of_nat (length (buckets w)).

(** Modelled from the spec: the start of the bucket of a timestamp. *)
Definition startOf (w : ring) (timestamp : Time) : Time :=
  (timestamp / granularity w) * granularity w.

(** Modelled from the spec: [Record(timestamp, value)] maps [timestamp] to
    the bucket [floor(timestamp/granularity) mod bucketCount] and overwrites
    that bucket's (start, value, populated): a slot reused by a later cycle
    ages out its old occupant, and within one bucket the last write wins. *)
Definition record (w : ring) (timestamp : Time) (value : float) : ring :=
  Ring (duration w) (granularity w)
    (<[Z.to_nat (bucketIndex w timestamp) :=
         Bucket (startOf w timestamp) value true]> (buckets w)).

(** Modelled from the spec: a bucket counts at [now] when it is populated
    and its start lies in [[now - duration, now]]. *)
Definition inRange (w : ring) (now : Time) (b : bucket) : bool :=
  populated b && (now - duration w <=? bucketStart b) && (bucketStart b <=? now).

(** Modelled from the spec: one step of the sum and the count of [Avg]. *)
Definition accumulate (w : ring) (now : Time) (acc : float * Z) (b : bucket)
  : float * Z :=
  if inRange w now b then ((acc.1 + bucketValue b)%float, acc.2 + 1) else acc.

(** Modelled from the spec: [Avg(now)] sums the populated buckets whose
    start is in [[now-duration, now]] and divides by the count of such
    buckets; it fails with EmptyWindow if that count is zero. *)
Definition avgAt (w : ring) (now : Time) : result float :=
  let '(sum, count) := foldl (accumulate w now) (0%float, 0) (buckets w) in
  if count =? 0 then Err EmptyWindow
  else Ok (sum / Go.float64_of_int count)%float.

(** The same in the words of the design document: the unweighted mean of
    the valid samples. *)
Definition validSamples (w : ring) (now : Time) : list float :=
  bucketValue <$> filter (fun b => inRange w now b = true) (buckets w).

Definition sumOf (l : list float) : float := foldl PrimFloat.add 0%float l.

Definition unweightedMean (l : list float) : float :=
  (sumOf l / Go.float64_of_int (Z.of_nat (length l)))%float.

(** Modelled from the spec: the bucketed window as the window of the
    clients.  The callers write [window.Avg()]: the instant the range is
    taken at is not an argument of theirs.  It is the parameter [clock] of
    this instance. *)
Definition atClock (clock : Time) : TimeWindowImpl := {|
  TimeWindow := ring;
  NewTimeWindow := newRing;
  Record := record;
  Avg := fun w => avgAt w clock;
|}.

End aggregation.

(** ** Kubernetes objects, as far as the code reads them *)

Module corev1.
(** [Ready] stands for what [utils.FilterReadyPods] reads of the pod's
    status. *)
Record Pod := {
  Name : string;
  PodIP : string;
  Ready : bool;
}.
End corev1.

(** ** Autoscaler metric clients: package [metrics] of the pod autoscaler *)

Module metrics.
Import time.
Export aggregation.

(** Modelled from the spec: the composite key (namespace, name,
    metric-identifier) of one aggregated time series, with structural
    equality. *)
Record NamespaceNameMetric := {
  Namespace : string;
  Name : string;
  MetricName : string;
}.

#[global] Instance NamespaceNameMetric_eq_dec : EqDecision NamespaceNameMetric.
Proof. solve_decision. Defined.

#[global] Instance NamespaceNameMetric_countable : Countable NamespaceNameMetric.
Proof.
  refine (inj_countable'
    (fun k => (Namespace k, Name k, MetricName k))
    (fun t => {| Namespace := t.1.1; Name := t.1.2; MetricName := t.2 |}) _).
  by intros [].
Defined.

(** The errors of the clients: [fmt.Errorf(format, metricKey)] of a missing
    window, the error [window.Avg()] returned, the fetcher's error. *)
Inductive error :=
| NotFound (format : string) (metricKey : NamespaceNameMetric)
| WindowError (e : aggregation.error)
| FetchError (msg : string).

Definition metricServerDefaultMetricWindow : Duration := Minute.

(** [MetricFetcher.FetchPodMetrics(ctx, pod, metricPort, metricName)]. *)
Definition MetricFetcher : Type := corev1.Pod -> Z -> string -> float + error.

Record PodMetricClient := { fetcher : MetricFetcher }.

Definition NewMetricsClient (fetcher : MetricFetcher) : PodMetricClient :=
  {| fetcher := fetcher |}.

(** The loop of [GetMetricsFromPods]; [metrics] is the slice appended to.
    The first error ends the call with [(nil, err)]. *)
Fixpoint GetMetricsFromPods_loop (c : PodMetricClient) (pods : list corev1.Pod)
    (metricName : string) (metricPort : Z) (metrics : list float)
    : option (list float) * option error :=
  match pods with
  | [] => (Some metrics, None)
  | pod :: rest =>
      match fetcher c pod metricPort metricName with
      | inr err => (None, Some err)
      | inl metric =>
          GetMetricsFromPods_loop c rest metricName metricPort (metrics ++ [metric])
      end
  end.

Definition GetMetricsFromPods (c : PodMetricClient) (pods : list corev1.Pod)
    (metricName : string) (metricPort : Z) : option (list float) * option error :=
  GetMetricsFromPods_loop c pods metricName metricPort [].

(** The update entry point the clients share (interface [MetricClient]). *)
Class MetricClient (C : Type) := {
  UpdatePodListMetric :
    C -> list float -> NamespaceNameMetric -> Time -> Go.outcome (C * option error);
}.

(** [PodMetricClient.UpdatePodListMetric]: [panic("implement me")]. *)
#[global] Instance PodMetricClient_MetricClient : MetricClient PodMetricClient := {|
  UpdatePodListMetric := fun c metricValues metricKey now =>
    Go.Panicked "implement me";
|}.

(** [var sumMetricValue float64; for ... { sumMetricValue += metricValue }] *)
Definition sumMetricValue (metricValues : list float) : float :=
  foldl PrimFloat.add 0%float metricValues.

Section Clients.
Context {W : TimeWindowImpl}.

(** The closure [updateWindow] of [UpdateMetricIntoWindow]: the window of
    [metricKey] is created when the map has none, then recorded into. *)
Definition updateWindow (granularity : Duration) (metricKey : NamespaceNameMetric)
    (now : Time) (metricValue : float)
    (windowDict : gmap NamespaceNameMetric TimeWindow) (duration : Duration)
    : gmap NamespaceNameMetric TimeWindow :=
  let window :=
    match windowDict !! metricKey with
    | Some window => window
    | None => NewTimeWindow duration granularity
    end in
  <[metricKey := Record window now metricValue]> windowDict.

(** *** The dual-window client.  [collectionsMutex] is taken on entry of
    [UpdatePodListMetric] and [StableAndPanicMetrics] and released on
    return; a call is one step here.  The [klog] line of
    [UpdatePodListMetric] is left out. *)
Record KPAMetricsClient := {
  kpaPodMetricClient : PodMetricClient;
  stableDuration : Duration;
  panicDuration : Duration;
  kpaGranularity : Duration;
  panicWindowDict : gmap NamespaceNameMetric TimeWindow;
  stableWindowDict : gmap NamespaceNameMetric TimeWindow;
}.

Definition NewKPAMetricsClient (fetcher : MetricFetcher) : KPAMetricsClient := {|
  kpaPodMetricClient := NewMetricsClient fetcher;
  stableDuration := 60 * Second;
  panicDuration := 10 * Second;
  kpaGranularity := Second;
  panicWindowDict := ∅;
  stableWindowDict := ∅;
|}.

Definition KPA_UpdateMetricIntoWindow (c : KPAMetricsClient)
    (metricKey : NamespaceNameMetric) (now : Time) (metricValue : float)
    : KPAMetricsClient * option error :=
  let panicWindowDict' :=
    updateWindow (kpaGranularity c) metricKey now metricValue
      (panicWindowDict c) (panicDuration c) in
  let stableWindowDict' :=
    updateWindow (kpaGranularity c) metricKey now metricValue
      (stableWindowDict c) (stableDuration c) in
  ({| kpaPodMetricClient := kpaPodMetricClient c;
      stableDuration := stableDuration c;
      panicDuration := panicDuration c;
      kpaGranularity := kpaGranularity c;
      panicWindowDict := panicWindowDict';
      stableWindowDict := stableWindowDict' |}, None).

Definition KPA_UpdatePodListMetric (c : KPAMetricsClient)
    (metricValues : list float) (metricKey : NamespaceNameMetric) (now : Time)
    : Go.outcome (KPAMetricsClient * option error) :=
  let sum := sumMetricValue metricValues in
  let '(c', err) := KPA_UpdateMetricIntoWindow c metricKey now sum in
  match err with
  | Some e => Go.Returned (c', Some e)
  | None => Go.Returned (c', None)
  end.

#[global] Instance KPAMetricsClient_MetricClient : MetricClient KPAMetricsClient :=
  {| UpdatePodListMetric := KPA_UpdatePodListMetric |}.

(** [StableAndPanicMetrics(metricKey, now)]: the triple
    [(float64, float64, error)] it returns. *)
Definition StableAndPanicMetrics (c : KPAMetricsClient)
    (metricKey : NamespaceNameMetric) (now : Time) : float * float * option error :=
  match panicWindowDict c !! metricKey with
  | None => (-1, -1, Some (NotFound "panic metrics %s not found" metricKey))%float
  | Some panicWindow =>
      match Avg panicWindow with
      | Err err => (-1, -1, Some (WindowError err))%float
      | Ok panicValue =>
          match stableWindowDict c !! metricKey with
          | None =>
              (-1, -1, Some (NotFound "stable metrics %s not found" metricKey))%float
          | Some stableWindow =>
              match Avg stableWindow with
              | Err err => (-1, -1, Some (WindowError err))%float
              | Ok stableValue => (stableValue, panicValue, None)
              end
          end
      end
  end.

(** *** The single-window client *)
Record APAMetricsClient := {
  apaPodMetricClient : PodMetricClient;
  apaDuration : Duration;
  apaGranularity : Duration;
  windowDict : gmap NamespaceNameMetric TimeWindow;
}.

Definition NewAPAMetricsClient (fetcher : MetricFetcher) : APAMetricsClient := {|
  apaPodMetricClient := NewMetricsClient fetcher;
  apaDuration := 60 * Second;
  apaGranularity := Second;
  windowDict := ∅;
|}.

Definition APA_UpdateMetricIntoWindow (c : APAMetricsClient)
    (metricKey : NamespaceNameMetric) (now : Time) (metricValue : float)
    : APAMetricsClient * option error :=
  ({| apaPodMetricClient := apaPodMetricClient c;
      apaDuration := apaDuration c;
      apaGranularity := apaGranularity c;
      windowDict :=
        updateWindow (apaGranularity c) metricKey now metricValue
          (windowDict c) (apaDuration c) |}, None).

Definition APA_UpdatePodListMetric (c : APAMetricsClient)
    (metricValues : list float) (metricKey : NamespaceNameMetric) (now : Time)
    : Go.outcome (APAMetricsClient * option error) :=
  let sum := sumMetricValue metricValues in
  let '(c', err) := APA_UpdateMetricIntoWindow c metricKey now sum in
  match err with
  | Some e => Go.Returned (c', Some e)
  | None => Go.Returned (c', None)
  end.

#[global] Instance APAMetricsClient_MetricClient : MetricClient APAMetricsClient :=
  {| UpdatePodListMetric := APA_UpdatePodListMetric |}.

Definition GetMetricValue (c : APAMetricsClient)
    (metricKey : NamespaceNameMetric) (now : Time) : float * option error :=
  match windowDict c !! metricKey with
  | None => (-1, Some (NotFound "metrics %s not found" metricKey))%float
  | Some window =>
      match Avg window with
      | Err err => (-1, Some (WindowError err))%float
      | Ok metricValue => (metricValue, None)
      end
  end.

End Clients.

Global Arguments KPAMetricsClient : clear implicits.
Global Arguments APAMetricsClient : clear implicits.

End metrics.


(** ** Engine metric definitions: package [pkg/metrics] of the gateway

    The package is not among the sources; the store uses the declarations
    below of it. *)

Module pkgmetrics.

(** Modelled from the spec: [MetricScope], whether a metric is keyed by the
    serving instance or by the (instance, model) pair.  The store compares a
    scope with [PodMetricScope] and [PodModelMetricScope] and has a branch for
    every other value. *)
Inductive MetricScope :=
| PodMetricScope
| PodModelMetricScope
| OtherScope (name : string).

#[global] Instance MetricScope_eq_dec : EqDecision MetricScope.
Proof. solve_decision. Defined.

Record HistogramMetricValue := {
  Sum : float;
  Count : float;
  Buckets : gmap string float;
}.

(** Modelled from the spec: [MetricValue], a tagged union over Simple,
    Histogram, LabelValue and the result of an external time-series query
    (here the rendering of the query result). *)
Inductive MetricValue :=
| SimpleMetricValue (Value : float)
| HistogramValue (h : HistogramMetricValue)
| LabelValueMetricValue (Value : string)
| PrometheusMetricValue (Result : string).

(** An entry of the table [metrics.Metrics]; [Scope] is its field
    [MetricScope]. *)
Record Metric := {
  Scope : MetricScope;
  RawMetricName : string;
  PromQL : string;
}.

(** What the store takes from the package and from the Prometheus client
    model: the metric names, the table of metric definitions, the raw samples
    of a scraped family with the helpers that read them, the query builder,
    and the filter of the ready pods.  A helper returns a value or an error,
    which is its message. *)
Class Package := {
  NumRequestsRunning : string;
  NumRequestsWaiting : string;
  NumRequestsSwapped : string;
  AvgPromptThroughputToksPerS : string;
  AvgGenerationThroughputToksPerS : string;
  GPUCacheUsagePerc : string;
  CPUCacheUsagePerc : string;
  IterationTokensTotal : string;
  TimeToFirstTokenSeconds : string;
  TimePerOutputTokenSeconds : string;
  E2ERequestLatencySeconds : string;
  RequestQueueTimeSeconds : string;
  RequestInferenceTimeSeconds : string;
  RequestDecodeTimeSeconds : string;
  RequestPrefillTimeSeconds : string;
  P95TTFT5m : string;
  P95TTFT5mPod : string;
  AvgTTFT5mPod : string;
  P95TPOT5mPod : string;
  AvgTPOT5mPod : string;
  AvgPromptToksPerReq : string;
  AvgGenerationToksPerReq : string;
  AvgE2ELatencyPod : string;
  AvgRequestsPerMinPod : string;
  AvgPromptThroughputToksPerMinPod : string;
  AvgGenerationThroughputToksPerMinPod : string;
  MaxLora : string;
  WaitingLoraAdapters : string;
  RunningLoraAdapters : string;
  Metrics : gmap string Metric;
  dtoMetric : Type;
  dtoMetricType : Type;
  GetLabelValueForKey : dtoMetric -> string -> string * option string;
  GetCounterGaugeValue : dtoMetric -> dtoMetricType -> float + string;
  GetHistogramValue : dtoMetric -> HistogramMetricValue + string;
  BuildQuery : string -> gmap string string -> string;
  FilterReadyPods : gmap string corev1.Pod -> list corev1.Pod;
}.

(** A [*dto.MetricFamily]: its type and its samples. *)
Record MetricFamily `{Package} := {
  familyType : dtoMetricType;
  familyMetric : list dtoMetric;
}.

End pkgmetrics.

(** ** [strconv.Atoi] and [utils.LoadEnv] *)

Module strconv.

Definition digitValue (a : ascii) : option Z :=
  let n := Z.of_nat (nat_of_ascii a) in
  if (48 <=? n) && (n <=? 57) then Some (n - 48) else None.

Fixpoint parseDigits (s : string) (acc : Z) : option Z :=
  match s with
  | EmptyString => Some acc
  | String a rest =>
      match digitValue a with
      | Some d => parseDigits rest (acc * 10 + d)
      | None => None
      end
  end.

(** [strconv.Atoi(s)] with a 64-bit [int]: an optional sign, then at least
    one decimal digit and nothing else; a value outside of [int] is an error
    too.  [None] stands for a non-nil [err]. *)
Definition Atoi (s : string) : option Z :=
  let '(neg, digits) :=
    match s with
    | String "+" rest => (false, rest)
    | String "-" rest => (true, rest)
    | _ => (false, s)
    end in
  match digits with
  | EmptyString => None
  | _ =>
      match parseDigits digits 0 with
      | Some n =>
          let v := if neg : bool then - n else n in
          if Go.inInt64 v then Some v else None
      | None => None
      end
  end.

End strconv.

Module utils.

(** Modelled from the spec: [utils.LoadEnv(key, defaultValue)] is not among
    the sources; it gives the environment value of [key], and [defaultValue]
    when there is none.  [env] is the environment of the process. *)
Definition LoadEnv (env : string -> option string) (key defaultValue : string) : string :=
  match env key with
  | Some value => if decide (value = "") then defaultValue else value
  | None => defaultValue
  end.

End utils.

(** ** The gateway cache store: package [cache] *)

Module cache.
Import time.
Export pkgmetrics.

Definition podPort : Z := 8000.
Definition defaultPodMetricRefreshIntervalInMS : Z := 50.

(** The errors [fmt.Errorf] builds in this package. *)
Inductive error :=
| ModelNameShouldBeEmpty (scope : MetricScope)
| ModelNameShouldNotBeEmpty (scope : MetricScope)
| ScopeNotSupported (scope : MetricScope)
| ErrorExecutingQuery (err : string)
| FailedToUpdateFromPrometheus (metricName podName : string) (err : error).

(** The ScopeMismatch of the design document: the model identifier does not
    fit the declared scope. *)
Definition isScopeMismatch (e : error) : bool :=
  match e with
  | ModelNameShouldBeEmpty _ | ModelNameShouldNotBeEmpty _ => true
  | _ => false
  end.

(** An argument of a log line. *)
Inductive logarg :=
| AStr (s : string)
| AInt (n : Z)
| AFloat (f : float)
| AHist (h : HistogramMetricValue)
| AValue (v : MetricValue)
| AScope (s : MetricScope)
| AErr (e : error).

(** What a call does besides changing the tables, in order: the store's
    [mu.Lock()] and [mu.Unlock()], a scrape of a pod's metrics URL, a
    Prometheus query, a [klog] line at verbosity [V]. *)
Inductive event :=
| Lock
| Unlock
| Scrape (url : string)
| Query (query : string)
| Log (V : Z) (message : string) (args : list logarg).

(** [prometheusv1.API.Query(ctx, query, ts)]: the rendered result with its
    warnings, or the error. *)
Definition PrometheusAPI : Type := string -> (string * list string) + string.

Section Store.
Context {P : Package}.

(** The scrape [metrics.ParseMetricsURL(url)], a reading of the outside
    world: the pair [(allMetrics, err)] it returns, a nil map being the empty
    one and a nil error [None]. *)
Variable ParseMetricsURL : string -> gmap string MetricFamily * option string.

(** The fields of [Store] the refresh reads and writes, and [events], the
    record of what the calls did. *)
Record Store := {
  prometheusApi : option PrometheusAPI;
  Pods : gmap string corev1.Pod;
  PodMetrics : gmap string (gmap string MetricValue);
  PodModelMetrics : gmap string (gmap string (gmap string MetricValue));
  PodToModelMapping : gmap string (gset string);
  events : list event;
}.

Definition setPodMetrics (c : Store) (t : gmap string (gmap string MetricValue)) : Store :=
  {| prometheusApi := prometheusApi c; Pods := Pods c; PodMetrics := t;
     PodModelMetrics := PodModelMetrics c;
     PodToModelMapping := PodToModelMapping c; events := events c |}.

Definition setPodModelMetrics (c : Store)
    (t : gmap string (gmap string (gmap string MetricValue))) : Store :=
  {| prometheusApi := prometheusApi c; Pods := Pods c; PodMetrics := PodMetrics c;
     PodModelMetrics := t;
     PodToModelMapping := PodToModelMapping c; events := events c |}.

Definition emit (c : Store) (e : event) : Store :=
  {| prometheusApi := prometheusApi c; Pods := Pods c; PodMetrics := PodMetrics c;
     PodModelMetrics := PodModelMetrics c;
     PodToModelMapping := PodToModelMapping c; events := events c ++ [e] |}.

Definition New (prometheusApi : option PrometheusAPI) : Store :=
  {| prometheusApi := prometheusApi; Pods := ∅; PodMetrics := ∅;
     PodModelMetrics := ∅; PodToModelMapping := ∅; events := [] |}.

Definition nilMapAssignment : string := "assignment to entry in nil map".

(** [updatePodRecordLocked].  A row that the table does not have is a nil
    map: reading it gives the zero value, writing it panics. *)
Definition updatePodRecordLocked (c : Store) (podName modelName metricName : string)
    (scope : MetricScope) (metricValue : MetricValue)
    : Go.outcome (Store * option error) :=
  match scope with
  | PodMetricScope =>
      if decide (modelName ≠ "") then
        Go.Returned (c, Some (ModelNameShouldBeEmpty scope))
      else
        match PodMetrics c !! podName with
        | None => Go.Panicked nilMapAssignment
        | Some row =>
            Go.Returned
              (setPodMetrics c
                 (<[podName := <[metricName := metricValue]> row]> (PodMetrics c)),
               None)
        end
  | PodModelMetricScope =>
      if decide (modelName = "") then
        Go.Returned (c, Some (ModelNameShouldNotBeEmpty scope))
      else
        match PodModelMetrics c !! podName with
        | None => Go.Panicked nilMapAssignment
        | Some models =>
            let models1 :=
              if decide (size (default ∅ (models !! modelName)) = 0%nat)
              then <[modelName := ∅]> models else models in
            match models1 !! modelName with
            | None => Go.Panicked nilMapAssignment
            | Some row =>
                Go.Returned
                  (setPodModelMetrics c
                     (<[podName :=
                          <[modelName := <[metricName := metricValue]> row]> models1]>
                        (PodModelMetrics c)),
                   None)
            end
        end
  | OtherScope _ => Go.Returned (c, Some (ScopeNotSupported scope))
  end.

(** [for _, x := range l { body }], a panic ending the loop. *)
Fixpoint forEach {A} (l : list A) (body : A -> Store -> Go.outcome Store) (c : Store)
    : Go.outcome Store :=
  match l with
  | [] => Go.Returned c
  | x :: rest => c' ← body x c; forEach rest body c'
  end.

Definition counterGaugeMetricNames : list string :=
  [ NumRequestsRunning; NumRequestsWaiting; NumRequestsSwapped;
    AvgPromptThroughputToksPerS; AvgGenerationThroughputToksPerS;
    GPUCacheUsagePerc; CPUCacheUsagePerc ].

Definition histogramMetricNames : list string :=
  [ IterationTokensTotal; TimeToFirstTokenSeconds; TimePerOutputTokenSeconds;
    E2ERequestLatencySeconds; RequestQueueTimeSeconds; RequestInferenceTimeSeconds;
    RequestDecodeTimeSeconds; RequestPrefillTimeSeconds ].

Definition prometheusMetricNames : list string :=
  [ P95TTFT5m; P95TTFT5mPod; AvgTTFT5mPod; P95TPOT5mPod; AvgTPOT5mPod;
    AvgPromptToksPerReq; AvgGenerationToksPerReq; AvgE2ELatencyPod;
    AvgRequestsPerMinPod; AvgPromptThroughputToksPerMinPod;
    AvgGenerationThroughputToksPerMinPod ].

Definition labelQueryMetricNames : list string :=
  [ MaxLora; WaitingLoraAdapters; RunningLoraAdapters ].

Definition podArgs (pod : corev1.Pod) : list logarg :=
  [AStr (corev1.PodIP pod); AInt podPort].

(** After the value of a sample is read: record it and log the outcome. *)
Definition recordSample (pod : corev1.Pod) (modelName metricName : string)
    (scope : MetricScope) (metricValue : MetricValue) (shown : logarg) (c : Store)
    : Go.outcome Store :=
  let podName := corev1.Name pod in
  '(c', err) ← updatePodRecordLocked c podName modelName metricName scope metricValue;
  match err with
  | Some e =>
      Go.Returned (emit c' (Log 4 "Failed to update metrics %s from pod %s %s %d: %v"
        ([AStr metricName; AStr podName] ++ podArgs pod ++ [AErr e])))
  | None =>
      Go.Returned (emit c' (Log 5 "Successfully parsed metrics"
        ([AStr metricName; AStr modelName] ++ podArgs pod ++ [shown])))
  end.

Definition failedToParse (pod : corev1.Pod) (metricName err : string) : event :=
  Log 4 "failed to parse metrics %s from pod %s %s %d: %v"
    ([AStr metricName; AStr (corev1.Name pod)] ++ podArgs pod ++ [AStr err]).

(** [updateSimpleMetricFromRawMetricsLocked]: the counter and gauge family. *)
Definition updateSimpleMetricFromRawMetricsLocked (pod : corev1.Pod)
    (allMetrics : gmap string MetricFamily) : Store -> Go.outcome Store :=
  forEach counterGaugeMetricNames (fun metricName c =>
    match Metrics !! metricName with
    | None => Go.Returned (emit c (Log 4 "Cannot find %v in the metric list" [AStr metricName]))
    | Some metric =>
        match allMetrics !! ("vllm:" +:+ metricName) with
        | None =>
            Go.Returned (emit c (Log 4 "Cannot find %v in the pod metrics" [AStr metricName]))
        | Some metricFamily =>
            let scope := Scope metric in
            forEach (familyMetric metricFamily) (fun familyMetric c =>
              let modelName := (GetLabelValueForKey familyMetric "model_name").1 in
              match GetCounterGaugeValue familyMetric (familyType metricFamily) with
              | inr err => Go.Returned (emit c (failedToParse pod metricName err))
              | inl metricValue =>
                  recordSample pod modelName metricName scope
                    (SimpleMetricValue metricValue) (AFloat metricValue) c
              end) c
        end
    end).

(** [updateHistogramMetricFromRawMetricsLocked]: the histogram family. *)
Definition updateHistogramMetricFromRawMetricsLocked (pod : corev1.Pod)
    (allMetrics : gmap string MetricFamily) : Store -> Go.outcome Store :=
  forEach histogramMetricNames (fun metricName c =>
    match Metrics !! metricName with
    | None => Go.Returned (emit c (Log 4 "Cannot find %v in the metric list" [AStr metricName]))
    | Some metric =>
        match allMetrics !! ("vllm:" +:+ metricName) with
        | None =>
            Go.Returned (emit c (Log 4 "Cannot find %v in the pod metrics" [AStr metricName]))
        | Some metricFamily =>
            let scope := Scope metric in
            forEach (familyMetric metricFamily) (fun familyMetric c =>
              let modelName := (GetLabelValueForKey familyMetric "model_name").1 in
              match GetHistogramValue familyMetric with
              | inr err => Go.Returned (emit c (failedToParse pod metricName err))
              | inl metricValue =>
                  let histogramValue :=
                    {| Sum := Sum metricValue; Count := Count metricValue;
                       Buckets := Buckets metricValue |} in
                  recordSample pod modelName metricName scope
                    (HistogramValue histogramValue) (AHist metricValue) c
              end) c
        end
    end).

(** [updateQueryLabelMetricFromRawMetricsLocked]: the label-query family,
    read from the raw series [RawMetricName]. *)
Definition updateQueryLabelMetricFromRawMetricsLocked (pod : corev1.Pod)
    (allMetrics : gmap string MetricFamily) : Store -> Go.outcome Store :=
  forEach labelQueryMetricNames (fun labelMetricName c =>
    match Metrics !! labelMetricName with
    | None =>
        Go.Returned (emit c (Log 4 "Cannot find %v in the metric list" [AStr labelMetricName]))
    | Some metric =>
        let rawMetricName := RawMetricName metric in
        let scope := Scope metric in
        match allMetrics !! ("vllm:" +:+ rawMetricName) with
        | None =>
            Go.Returned (emit c (Log 4 "Cannot find %v in the pod metrics" [AStr rawMetricName]))
        | Some metricFamily =>
            forEach (familyMetric metricFamily) (fun familyMetric c =>
              let modelName := (GetLabelValueForKey familyMetric "model_name").1 in
              let labelValue := (GetLabelValueForKey familyMetric labelMetricName).1 in
              recordSample pod modelName labelMetricName scope
                (LabelValueMetricValue labelValue) (AStr labelValue) c) c
        end
    end).

(** [queryUpdatePromQLMetricsLocked]: it returns an error; the caller logs
    it. *)
Definition queryUpdatePromQLMetricsLocked (metric : Metric)
    (queryLabels : gmap string string) (podName modelName metricName : string)
    (c : Store) : Go.outcome (Store * option error) :=
  let scope := Scope metric in
  let query := BuildQuery (PromQL metric) queryLabels in
  match prometheusApi c with
  | None => Go.Panicked "invalid memory address or nil pointer dereference"
  | Some api =>
      let c := emit c (Query query) in
      match api query with
      | inr err => Go.Returned (c, Some (ErrorExecutingQuery err))
      | inl (result, warnings) =>
          let c :=
            if decide (0 < length warnings)%nat
            then emit c (Log 4 "Warnings: %v\n" (AStr <$> warnings)) else c in
          let metricValue := PrometheusMetricValue result in
          '(c, err) ← updatePodRecordLocked c podName modelName metricName scope metricValue;
          match err with
          | Some e =>
              Go.Returned (c, Some (FailedToUpdateFromPrometheus metricName podName e))
          | None =>
              Go.Returned
                (emit c (Log 5 "Successfully parsed metrics from prometheus"
                   [AStr metricName; AStr modelName; AStr podName; AInt podPort;
                    AValue metricValue]), None)
          end
      end
  end.

Definition logQueryError (r : Store * option error) : Store :=
  match r.2 with
  | Some e => emit r.1 (Log 4 "Failed to query and update PromQL metrics: %v" [AErr e])
  | None => r.1
  end.

(** [updateMetricFromPromQLLocked]: the metrics resolved by query.  The
    models of the pod are ranged over in the order of [elements]; the label
    map of one metric is shared by the queries of its models. *)
Definition updateMetricFromPromQLLocked (pod : corev1.Pod) : Store -> Go.outcome Store :=
  let podName := corev1.Name pod in
  forEach prometheusMetricNames (fun metricName c =>
    let queryLabels : gmap string string :=
      {[ "instance" := corev1.PodIP pod +:+ ":8000" ]} in
    match Metrics !! metricName with
    | None => Go.Returned (emit c (Log 4 "Cannot find %v in the metric list" [AStr metricName]))
    | Some metric =>
        match Scope metric with
        | PodMetricScope =>
            r ← queryUpdatePromQLMetricsLocked metric queryLabels podName "" metricName c;
            Go.Returned (logQueryError r)
        | PodModelMetricScope =>
            match PodToModelMapping c !! podName with
            | Some modelNames =>
                forEach (elements modelNames) (fun modelName c =>
                  let queryLabels := <["model_name" := modelName]> queryLabels in
                  r ← queryUpdatePromQLMetricsLocked metric queryLabels podName
                        modelName metricName c;
                  Go.Returned (logQueryError r)) c
            | None =>
                Go.Returned (emit c (Log 4 "Cannot find model names for pod %s" [AStr podName]))
            end
        | OtherScope _ =>
            Go.Returned (emit c (Log 4 "Scope %v is not supported" [AScope (Scope metric)]))
        end
    end).

(** The rows of a pod are made before they are written: [len(row) == 0]
    holds of a missing row and of an empty one. *)
Definition ensureRows (podName : string) (c : Store) : Store :=
  let c :=
    if decide (size (default ∅ (PodMetrics c !! podName)) = 0%nat)
    then setPodMetrics c (<[podName := ∅]> (PodMetrics c)) else c in
  if decide (size (default ∅ (PodModelMetrics c !! podName)) = 0%nat)
  then setPodModelMetrics c (<[podName := ∅]> (PodModelMetrics c)) else c.

Definition metricsURL (pod : corev1.Pod) : string :=
  "http://" +:+ corev1.PodIP pod +:+ ":8000/metrics".

(** The body of the loop of [updatePodMetrics] for one ready pod. *)
Definition updateOnePod (pod : corev1.Pod) (c : Store) : Go.outcome Store :=
  let podName := corev1.Name pod in
  let c := ensureRows podName c in
  let url := metricsURL pod in
  let c := emit c (Scrape url) in
  let '(allMetrics, err) := ParseMetricsURL url in
  let c :=
    match err with
    | Some err => emit c (Log 4 "Error parsing metric families: %v\n" [AStr err])
    | None => c
    end in
  c ← updateSimpleMetricFromRawMetricsLocked pod allMetrics c;
  c ← updateHistogramMetricFromRawMetricsLocked pod allMetrics c;
  c ← updateQueryLabelMetricFromRawMetricsLocked pod allMetrics c;
  match prometheusApi c with
  | None =>
      Go.Returned (emit c (Log 4
        "Prometheus api is not initialized, PROMETHEUS_ENDPOINT is not configured, skip fetching prometheus metrics" []))
  | Some _ => updateMetricFromPromQLLocked pod c
  end.

(** [updatePodMetrics]: [c.mu.Lock(); defer c.mu.Unlock()], then the loop
    over the ready pods. *)
Definition updatePodMetrics (c : Store) : Go.outcome Store :=
  let c := emit c Lock in
  let readyPods := FilterReadyPods (Pods c) in
  if decide (length readyPods = 0%nat) then Go.Returned (emit c Unlock)
  else
    c ← forEach readyPods updateOnePod c;
    Go.Returned (emit c Unlock).

End Store.

(** [getPodMetricRefreshInterval], with the [klog.Infof] lines it writes. *)
Definition getPodMetricRefreshInterval (env : string -> option string)
    : Duration * list event :=
  let value := utils.LoadEnv env "AIBRIX_POD_METRIC_REFRESH_INTERVAL_MS" "" in
  let usingDefault :=
    Log 0 "using default refresh interval: %d ms"
      [AInt defaultPodMetricRefreshIntervalInMS] in
  let invalid :=
    Log 0 "invalid AIBRIX_POD_METRIC_REFRESH_INTERVAL_MS: %s, falling back to default"
      [AStr value] in
  if decide (value ≠ "") then
    match strconv.Atoi value with
    | Some intValue =>
        if decide (intValue <= 0) then
          (defaultPodMetricRefreshIntervalInMS * Millisecond, [invalid; usingDefault])
        else
          (Go.wrap64 (intValue * Millisecond),
           [Log 0 "using AIBRIX_POD_METRIC_REFRESH_INTERVAL_MS env value for pod metrics refresh interval: %d ms"
              [AInt intValue]])
    | None =>
        (defaultPodMetricRefreshIntervalInMS * Millisecond, [invalid; usingDefault])
    end
  else (defaultPodMetricRefreshIntervalInMS * Millisecond, [usingDefault]).

(** [time.NewTicker(d)] panics when [d] is not positive. *)
Definition NewTicker (d : Duration) : Go.outcome Duration :=
  if decide (d <= 0) then Go.Panicked "non-positive interval for NewTicker"
  else Go.Returned d.

(** [initMetricsCache] starts with a ticker of [podMetricRefreshInterval],
    the value [getPodMetricRefreshInterval] gave when the package was
    initialised. *)
Definition initMetricsCache (env : string -> option string) : Go.outcome Duration :=
  NewTicker (getPodMetricRefreshInterval env).1.

(** *** The trace-persistence loop *)

Section TraceCache.

(** The two constants of the package are not among the sources. *)
Variable RequestTraceWriteInterval : Duration.
Variable MaxRequestTraceIntervalOffset : Duration.

(** The timer and the ticker [initTraceCache] has made when it starts its
    goroutine; [None] is a nil pointer, [Some d] a timer or ticker of
    duration [d]. *)
Record traceTimers := {
  traceAlignmentTimer : option Duration;
  traceTicker : option Duration;
}.

(** [time.Duration(time.Now().UnixNano()) % RequestTraceWriteInterval]:
    the remainder has the sign of the dividend. *)
Definition tickerOffset (nowUnixNano : Z) : Duration :=
  Z.rem nowUnixNano RequestTraceWriteInterval.

Definition newTraceTimers (nowUnixNano : Z) : traceTimers :=
  if decide (tickerOffset nowUnixNano > MaxRequestTraceIntervalOffset) then
    {| traceAlignmentTimer :=
         Some (Go.wrap64 (RequestTraceWriteInterval - tickerOffset nowUnixNano));
       traceTicker := None |}
  else
    {| traceAlignmentTimer := None; traceTicker := Some RequestTraceWriteInterval |}.

(** What the goroutine waits on, in order. *)
Inductive wait :=
| AlignmentTimer (delay : Duration)
| Ticker (period : Duration).

(** The goroutine of [initTraceCache]: nothing without a Redis client;
    otherwise the alignment timer when there is one, then the ticker, for
    ever (until [stopCh]). *)
Definition traceLoop (redisClient : bool) (timers : traceTimers) : list wait :=
  if redisClient then
    match traceAlignmentTimer timers with
    | Some delay => [AlignmentTimer delay; Ticker RequestTraceWriteInterval]
    | None =>
        match traceTicker timers with
        | Some period => [Ticker period]
        | None => []
        end
    end
  else [].

Definition initTraceCache (redisClient : bool) (nowUnixNano : Z) : list wait :=
  traceLoop redisClient (newTraceTimers nowUnixNano).

(** The instant the periodic ticker is started at, when the timers fire on
    time: after the alignment delay if there is one. *)
Definition tickerStart (nowUnixNano : Z) : Z :=
  match traceAlignmentTimer (newTraceTimers nowUnixNano) with
  | Some delay => nowUnixNano + delay
  | None => nowUnixNano
  end.

Definition hasAlignmentDelay (waits : list wait) : bool :=
  match waits with
  | AlignmentTimer _ :: _ => true
  | _ => false
  end.

End TraceCache.

End cache.

(** * Properties *)

(** ** The bucketed window *)

Section WindowFacts.
Import time aggregation.

Implicit Types (w : ring) (b : bucket) (now : Time).

Lemma accumulate_foldl w now bs (s : float) (n : Z) :
  let valid := filter (fun b => inRange w now b = true) bs in
  foldl (accumulate w now) (s, n) bs =
  (foldl PrimFloat.add s (bucketValue <$> valid), n + Z.of_nat (length valid)).
Proof.
  revert s n. induction bs as [|b bs IH]; intros s n; simpl.
  { f_equal. lia. }
  rewrite filter_cons. unfold accumulate at 2.
  destruct (inRange w now b) eqn:Hb; simpl.
  - rewrite IH. simpl. f_equal. lia.
  - apply IH.
Qed.

(** [avgAt] is the unweighted mean of the valid samples, and EmptyWindow
    when there is none. *)
Lemma avgAt_unweightedMean w now :
  avgAt w now =
  match validSamples w now with
  | [] => Err EmptyWindow
  | _ :: _ => Ok (unweightedMean (validSamples w now))
  end.
Proof.
  unfold avgAt, validSamples, unweightedMean, sumOf.
  rewrite accumulate_foldl. simpl.
  rewrite length_fmap.
  destruct (filter _ (buckets w)) as [|b l]; simpl; done.
Qed.

Lemma validSamples_nil w now :
  validSamples w now = [] <->
  forall b, b ∈ buckets w -> inRange w now b = false.
Proof.
  unfold validSamples. split.
  - intros H b Hb. apply fmap_nil_inv in H.
    destruct (inRange w now b) eqn:E; [|done].
    assert (b ∈ filter (fun b => inRange w now b = true) (buckets w)) as Hin
      by (apply list_elem_of_filter; done).
    rewrite H in Hin. by apply not_elem_of_nil in Hin.
  - intros H. induction (buckets w) as [|b l IH]; [done|].
    rewrite filter_cons. rewrite decide_False.
    + apply IH. intros b' Hb'. apply H. by right.
    + rewrite H; [done | by left].
Qed.

Lemma avgAt_EmptyWindow w now :
  avgAt w now = Err EmptyWindow <-> validSamples w now = [].
Proof.
  rewrite avgAt_unweightedMean. destruct (validSamples w now); split; done.
Qed.

End WindowFacts.

(** ** binary64 arithmetic of a one-sample mean *)

Module Float64Facts.

Definition oneSF : spec_float := S754_finite false 4503599627370496 (-52).

Lemma div_eucl_exact (m : positive) (k q : Z) :
  0 <= k -> Z.pos m * 2 ^ k = q * 4503599627370496 ->
  Z.div_eucl (Z.pos m * 2 ^ k) 4503599627370496 = (q, 0).
Proof.
  intros Hk Hq. rewrite Hq.
  pose proof (Z.div_eucl_eq (q * 4503599627370496) 4503599627370496 ltac:(lia)) as H.
  pose proof (Z.mod_pos_bound (q * 4503599627370496) 4503599627370496 ltac:(lia)) as Hb.
  unfold Z.modulo in Hb.
  destruct (Z.div_eucl _ _) as [q' r].
  assert (r = 0 /\ q' = q) as [-> ->]; [lia|reflexivity].
Qed.

(** Dividing by one is exact: the quotient of the mantissas has no
    remainder, and rounding leaves it as it is. *)
Lemma SF64div_one (x : spec_float) :
  valid_binary x = true -> SF64div x oneSF = x.
Proof.
  unfold SF64div, oneSF.
  destruct x as [s|s| |s m e]; intros Hv; try reflexivity;
    try (destruct s; reflexivity).
  simpl in Hv.
  unfold bounded, canonical_mantissa, fexp, emin, prec, emax in Hv.
  apply andb_prop in Hv as [Hc He].
  apply Z.eqb_eq in Hc. apply Z.leb_le in He.
  unfold SFdiv, SFdiv_core_binary. cbn [Zdigits2 digits2_pos].
  change (Z.pos (Pos.succ _)) with 53.
  set (d := Z.pos (digits2_pos m)) in *.
  assert (0 < d) by (unfold d; lia).
  unfold fexp, emin, prec, emax.
  destruct (Z_lt_le_dec (d + e - 54) (-1074)) as [Hsub|Hnorm].
  - (* subnormal, or normal with the least exponent *)
    assert (e = -1074) as -> by lia.
    replace (Z.min _ _) with (-1074) by lia.
    change (-1074 - -52 - -1074) with 52.
    rewrite Z.shiftl_mul_pow2 by lia.
    rewrite (div_eucl_exact m 52 (Z.pos m)) by lia.
    change (new_location 4503599627370496 0) with loc_Exact.
    unfold binary_round_aux, shr_fexp, fexp, emin.
    cbn [Zdigits2 shr_record_of_loc].
    fold d. replace (Z.max (d + -1074 - 53) (3 - 1024 - 53) - -1074) with 0 by lia.
    cbn [shr shr_m loc_of_shr_record round_nearest_even Zdigits2 shr_record_of_loc].
    fold d. replace (Z.max (d + -1074 - 53) (3 - 1024 - 53) - -1074) with 0 by lia.
    cbn. destruct s; reflexivity.
  - (* normal: the quotient has one digit more and is shifted back *)
    assert (d = 53) by lia.
    replace (Z.min _ _) with (e - 1) by lia.
    replace (e - -52 - (e - 1)) with 53 by lia.
    rewrite Z.shiftl_mul_pow2 by lia.
    rewrite (div_eucl_exact m 53 (Z.pos m~0)) by lia.
    change (new_location 4503599627370496 0) with loc_Exact.
    unfold binary_round_aux, shr_fexp, fexp, emin.
    cbn [Zdigits2 digits2_pos shr_record_of_loc].
    rewrite Pos2Z.inj_succ. fold d.
    replace (Z.max (Z.succ d + (e - 1) - 53) (3 - 1024 - 53) - (e - 1)) with 1 by lia.
    cbn [shr SpecFloat.iter_pos shr_1 shr_m loc_of_shr_record round_nearest_even Zdigits2
         shr_record_of_loc orb].
    fold d. replace (e - 1 + 1) with e by lia.
    replace (Z.max (d + e - 53) (3 - 1024 - 53) - e) with 0 by lia.
    cbn [shr shr_m].
    destruct (Z.leb_spec e (1024 - 53)); [|lia].
    destruct s; reflexivity.
Qed.

Lemma div_one (x : float) : (x / 1)%float = x.
Proof.
  apply Prim2SF_inj. rewrite FloatAxioms.div_spec. apply SF64div_one, Prim2SF_valid.
Qed.

Lemma zero_add (x : float) : x <> (-0)%float -> (0 + x)%float = x.
Proof.
  intros Hx. apply Prim2SF_inj. rewrite FloatAxioms.add_spec.
  change (Prim2SF 0) with (S754_zero false).
  destruct (Prim2SF x) as [[|]|[|]| |s m e] eqn:E; try reflexivity.
  exfalso. apply Hx. rewrite <- (SF2Prim_Prim2SF x), E. reflexivity.
Qed.

(** Two [float64] hold the same value: they are identical, or Go's [==]
    holds of them (the two zeros). *)
Definition sameFloat64 (x y : float) : Prop := x = y \/ (x =? y)%float = true.

(** The mean of the one sample [v] is [v]; of the negative zero, it is the
    zero. *)
Lemma unweightedMean_single (v : float) :
  sameFloat64 (aggregation.unweightedMean [v]) v /\
  (v <> (-0)%float -> aggregation.unweightedMean [v] = v).
Proof.
  unfold aggregation.unweightedMean, aggregation.sumOf. simpl.
  change (Go.float64_of_int 1) with 1%float. rewrite div_one.
  destruct (Leibniz.eqb v (-0)%float) eqn:E.
  - apply FloatAxioms.Leibniz.eqb_spec in E as ->.
    split; [right; reflexivity | done].
  - assert (v <> (-0)%float) as Hv.
    { intros ->. apply not_true_iff_false in E. apply E.
      by apply FloatAxioms.Leibniz.eqb_spec. }
    rewrite zero_add by done. split; [by left | done].
Qed.

End Float64Facts.

(** ** Recording into a new window *)

Section RecordFacts.
Import time aggregation.

Lemma filter_none {A} (P : A -> Prop) `{forall x, Decision (P x)} (l : list A) :
  Forall (fun y => ~ P y) l -> filter P l = [].
Proof.
  induction 1 as [|y l Hy _ IH]; [done|].
  rewrite filter_cons, decide_False by done. exact IH.
Qed.

Lemma filter_insert_only {A} (P : A -> Prop) `{forall x, Decision (P x)}
    (l : list A) (i : nat) (x : A) :
  Forall (fun y => ~ P y) l -> (i < length l)%nat -> P x ->
  filter P (<[i:=x]> l) = [x].
Proof.
  intros Hl Hi Hx. rewrite insert_take_drop by done.
  rewrite filter_app, filter_cons, decide_True by done.
  rewrite !filter_none; [done | by apply Forall_drop | by apply Forall_take].
Qed.

Lemma newRing_length (d g : Duration) :
  0 < g -> g <= d -> (0 < length (buckets (newRing d g)))%nat.
Proof.
  intros Hg Hd. simpl. rewrite length_replicate. unfold bucketCount.
  assert (1 <= d / g) by (apply Z.div_le_lower_bound; lia). lia.
Qed.

Lemma bucketIndex_lt w (t : Time) :
  (0 < length (buckets w))%nat ->
  (Z.to_nat (bucketIndex w t) < length (buckets w))%nat.
Proof.
  intros Hn. unfold bucketIndex.
  pose proof (Z.mod_pos_bound (t / granularity w) (Z.of_nat (length (buckets w)))
                ltac:(lia)).
  lia.
Qed.

Lemma startOf_bounds w (t : Time) :
  0 < granularity w -> startOf w t <= t < startOf w t + granularity w.
Proof.
  intros Hg. unfold startOf.
  pose proof (Z.mul_div_le t (granularity w) Hg).
  pose proof (Z.mul_succ_div_gt t (granularity w) Hg). lia.
Qed.

(** A sample recorded into a new window is its only valid sample at every
    instant [clock] from the start of its bucket to [duration] after it. *)
Lemma validSamples_record_new (d g : Duration) (t clock : Time) (v : float) :
  0 < g -> g <= d ->
  startOf (newRing d g) t <= clock <= startOf (newRing d g) t + d ->
  validSamples (record (newRing d g) t v) clock = [v].
Proof.
  intros Hg Hd Hclock. unfold validSamples, record.
  cbn [buckets duration granularity].
  erewrite filter_insert_only; [done | | |].
  - apply Forall_forall. intros b Hb. apply elem_of_replicate in Hb as [-> _].
    unfold inRange. simpl. done.
  - apply (bucketIndex_lt (newRing d g)). by apply newRing_length.
  - unfold inRange. cbn [populated bucketStart duration].
    rewrite andb_true_l. apply andb_true_intro.
    split; apply Z.leb_le; simpl; lia.
Qed.

Lemma avgAt_record_new (d g : Duration) (now : Time) (v : float) :
  0 < g -> g <= d ->
  avgAt (record (newRing d g) now v) now = Ok (unweightedMean [v]).
Proof.
  intros Hg Hd. rewrite avgAt_unweightedMean.
  rewrite validSamples_record_new; [done..|].
  pose proof (startOf_bounds (newRing d g) now Hg) as Hb.
  cbn [granularity newRing] in Hb. lia.
Qed.

End RecordFacts.

(** ** The metric clients *)

Section ClientFacts.
Import time metrics.
Context {W : TimeWindowImpl}.

(** The stable and the panic map have the same keys. *)
Definition sameKeys (c : KPAMetricsClient W) : Prop :=
  forall key, panicWindowDict c !! key = None <-> stableWindowDict c !! key = None.

(** The granularity is positive and no longer than the two durations. *)
Definition validDurations (c : KPAMetricsClient W) : Prop :=
  0 < kpaGranularity c /\ kpaGranularity c <= panicDuration c /\
  kpaGranularity c <= stableDuration c.

(** The clients the code can build: a new one, then updates. *)
Inductive reachable : KPAMetricsClient W -> Prop :=
| reachable_new fetcher : reachable (NewKPAMetricsClient fetcher)
| reachable_update c key now v :
    reachable c -> reachable (KPA_UpdateMetricIntoWindow c key now v).1
| reachable_update_list c values key now c' err :
    reachable c ->
    KPA_UpdatePodListMetric c values key now = Go.Returned (c', err) ->
    reachable c'.

Lemma updateWindow_lookup g key now v (dict : gmap NamespaceNameMetric TimeWindow) d :
  updateWindow g key now v dict d !! key =
  Some (Record (default (NewTimeWindow d g) (dict !! key)) now v).
Proof.
  unfold updateWindow. rewrite lookup_insert_eq. by destruct (dict !! key).
Qed.

Lemma updateWindow_lookup_ne g key key' now v
    (dict : gmap NamespaceNameMetric TimeWindow) d :
  key <> key' -> updateWindow g key now v dict d !! key' = dict !! key'.
Proof. intros Hne. unfold updateWindow. by rewrite lookup_insert_ne. Qed.

Lemma KPA_UpdatePodListMetric_eq c values key now :
  KPA_UpdatePodListMetric c values key now =
  Go.Returned ((KPA_UpdateMetricIntoWindow c key now (sumMetricValue values)).1, None).
Proof. reflexivity. Qed.

Lemma APA_UpdatePodListMetric_eq c values key now :
  APA_UpdatePodListMetric c values key now =
  Go.Returned ((APA_UpdateMetricIntoWindow c key now (sumMetricValue values)).1, None).
Proof. reflexivity. Qed.




Lemma reachable_validDurations c : reachable c -> validDurations c.
Proof.
  induction 1 as [fetcher|c key now v _ IH|c values key now c' err _ IH Heq].
  - unfold validDurations. cbn. unfold Second. lia.
  - exact IH.
  - rewrite KPA_UpdatePodListMetric_eq in Heq. injection Heq as <- _. exact IH.
Qed.

(** After the first update of a key, the averages read are those of the two
    new windows with the one sample. *)
Lemma StableAndPanicMetrics_first_update c key (now now' : Time) v stableValue panicValue :
  panicWindowDict c !! key = None ->
  stableWindowDict c !! key = None ->
  Avg (Record (NewTimeWindow (panicDuration c) (kpaGranularity c)) now v) = Ok panicValue ->
  Avg (Record (NewTimeWindow (stableDuration c) (kpaGranularity c)) now v) = Ok stableValue ->
  StableAndPanicMetrics (KPA_UpdateMetricIntoWindow c key now v).1 key now' =
  (stableValue, panicValue, None).
Proof.
  intros Hp Hs Hpv Hsv. unfold StableAndPanicMetrics, KPA_UpdateMetricIntoWindow.
  cbn [fst panicWindowDict stableWindowDict].
  rewrite !updateWindow_lookup, Hp, Hs. cbn [default]. by rewrite Hpv, Hsv.
Qed.

(** The reader's [now] is not passed on to the windows. *)
Lemma StableAndPanicMetrics_now c key (now now' : Time) :
  StableAndPanicMetrics c key now = StableAndPanicMetrics c key now'.
Proof. reflexivity. Qed.

Lemma GetMetricValue_now (c : APAMetricsClient W) key (now now' : Time) :
  GetMetricValue c key now = GetMetricValue c key now'.
Proof. reflexivity. Qed.

End ClientFacts.

Section ClientClaims.
Import time metrics.

Definition aKey : NamespaceNameMetric :=
  {| Namespace := "default"; Name := "llama"; MetricName := "num_requests_running" |}.

Definition aFetcher : MetricFetcher := fun _ _ _ => inl 0%float.

(** C1: for every key and time now, StableAndPanicMetrics(key, now) of the
    dual-window client is all-or-nothing.  It fails with KeyNotFound when the
    stable or the panic window was never created for the key; when both
    windows exist and the average of one of them fails, it fails with the
    error of that window (EmptyWindow); only when both windows exist and both
    averages succeed does it return (stableAvg, panicAvg).  Every failure
    returns (-1, -1) with the error: never a partial result, never the zero
    value. *)
Theorem StableAndPanicMetrics_all_or_nothing (W : TimeWindowImpl)
    (c : KPAMetricsClient W) (key : NamespaceNameMetric) (now : Time) :
  sameKeys c ->
  let r := StableAndPanicMetrics c key now in
  (panicWindowDict c !! key = None \/ stableWindowDict c !! key = None ->
   exists format, r = ((-1)%float, (-1)%float, Some (NotFound format key))) /\
  (forall panicWindow stableWindow,
     panicWindowDict c !! key = Some panicWindow ->
     stableWindowDict c !! key = Some stableWindow ->
     (forall e, Avg panicWindow = Err e \/ Avg stableWindow = Err e ->
        r = ((-1)%float, (-1)%float, Some (WindowError EmptyWindow))) /\
     (forall panicValue stableValue,
        Avg panicWindow = Ok panicValue -> Avg stableWindow = Ok stableValue ->
        r = (stableValue, panicValue, None))) /\
  (forall s p e, r = (s, p, Some e) -> s = (-1)%float /\ p = (-1)%float) /\
  (forall s p, r = (s, p, None) ->
     exists panicWindow stableWindow,
       panicWindowDict c !! key = Some panicWindow /\
       stableWindowDict c !! key = Some stableWindow /\
       Avg panicWindow = Ok p /\ Avg stableWindow = Ok s).
Proof.
  intros Hkeys r. subst r. unfold StableAndPanicMetrics.
  destruct (panicWindowDict c !! key) as [pw|] eqn:Hp.
  - destruct (stableWindowDict c !! key) as [sw|] eqn:Hs.
    2: { apply Hkeys in Hs. congruence. }
    split_and!.
    + intros [?|?]; discriminate.
    + intros ? ? [= <-] [= <-]. split.
      * intros [] [He|He]; rewrite He; [done|].
        by destruct (Avg pw) as [?|[]].
      * by intros pv sv -> ->.
    + intros s p e. destruct (Avg pw) as [?|[]], (Avg sw) as [?|[]];
        by intros [= <- <- _].
    + intros s p. destruct (Avg pw) as [pv|[]] eqn:Epw; [|done].
      destruct (Avg sw) as [sv|[]] eqn:Esw; [|done].
      intros [= <- <-]. by exists pw, sw.
  - split_and!.
    + intros _. by eexists.
    + intros ? ? [=].
    + by intros s p e [= <- <- _].
    + intros ? ? [=].
Qed.

Lemma StableAndPanicMetrics_all_or_nothing_witness :
  StableAndPanicMetrics (W := atClock 0) (NewKPAMetricsClient aFetcher) aKey 0 =
  ((-1)%float, (-1)%float, Some (NotFound "panic metrics %s not found" aKey)).
Proof.
  destruct (StableAndPanicMetrics_all_or_nothing (atClock 0)
              (NewKPAMetricsClient aFetcher) aKey 0) as [Hmissing _].
  - intros key. split; intros _; reflexivity.
  - destruct Hmissing as [format Hr]; [left; reflexivity|].
    reflexivity.
Defined.

(** With the bucketed windows of the design document, which take their
    range at the instant [clock]: the call fails with EmptyWindow exactly when
    one of the two windows holds no sample in range, and it returns the two
    unweighted means otherwise. *)
Lemma StableAndPanicMetrics_bucketed (clock : Time)
    (c : KPAMetricsClient (atClock clock)) (key : NamespaceNameMetric) (now : Time)
    (panicWindow stableWindow : ring) :
  panicWindowDict c !! key = Some panicWindow ->
  stableWindowDict c !! key = Some stableWindow ->
  StableAndPanicMetrics c key now =
  match validSamples panicWindow clock, validSamples stableWindow clock with
  | _ :: _, _ :: _ =>
      (unweightedMean (validSamples stableWindow clock),
       unweightedMean (validSamples panicWindow clock), None)
  | _, _ => ((-1)%float, (-1)%float, Some (WindowError EmptyWindow))
  end.
Proof.
  intros Hp Hs. unfold StableAndPanicMetrics.
  destruct (panicWindowDict c !! key) as [pw|]; [|done].
  destruct (stableWindowDict c !! key) as [sw|]; [|done].
  injection Hp as ->. injection Hs as ->.
  cbn [Avg atClock]. rewrite !avgAt_unweightedMean.
  by destruct (validSamples panicWindow clock), (validSamples stableWindow clock).
Qed.

(** C3: for every key never updated before and every value v, one call
    UpdateMetricIntoWindow(key, now, v) creates the stable and the panic
    window of the key with the configured durations and granularity and
    records (now, v) into both; StableAndPanicMetrics(key, now) then succeeds,
    and its stable and its panic average are the value v.  (The mean of the
    single sample is computed as (0 + v) / 1 in binary64: it is v itself,
    except that for the negative zero it is the zero, which Go's [==]
    equates with it.) *)
Theorem UpdateMetricIntoWindow_then_StableAndPanicMetrics (now : Time)
    (c : KPAMetricsClient (atClock now)) (key : NamespaceNameMetric) (v : float) :
  validDurations c ->
  panicWindowDict c !! key = None ->
  stableWindowDict c !! key = None ->
  let r := KPA_UpdateMetricIntoWindow c key now v in
  r.2 = None /\
  panicWindowDict r.1 !! key =
    Some (record (newRing (panicDuration c) (kpaGranularity c)) now v) /\
  stableWindowDict r.1 !! key =
    Some (record (newRing (stableDuration c) (kpaGranularity c)) now v) /\
  exists stableValue panicValue,
    StableAndPanicMetrics r.1 key now = (stableValue, panicValue, None) /\
    Float64Facts.sameFloat64 stableValue v /\
    Float64Facts.sameFloat64 panicValue v /\
    (v <> (-0)%float -> stableValue = v /\ panicValue = v).
Proof.
  intros (Hg & Hp & Hs) Hpanic Hstable r. subst r.
  set (c' := (KPA_UpdateMetricIntoWindow c key now v).1).
  assert (panicWindowDict c' !! key =
          Some (record (newRing (panicDuration c) (kpaGranularity c)) now v)) as Hp'.
  { unfold c', KPA_UpdateMetricIntoWindow. cbn [fst panicWindowDict].
    etrans; [apply (updateWindow_lookup (W:=atClock now))|]. by rewrite Hpanic. }
  assert (stableWindowDict c' !! key =
          Some (record (newRing (stableDuration c) (kpaGranularity c)) now v)) as Hs'.
  { unfold c', KPA_UpdateMetricIntoWindow. cbn [fst stableWindowDict].
    etrans; [apply (updateWindow_lookup (W:=atClock now))|]. by rewrite Hstable. }
  split; [done|]. split; [done|]. split; [done|].
  exists (unweightedMean [v]), (unweightedMean [v]).
  destruct (Float64Facts.unweightedMean_single v) as [Hsame Heq].
  split; [|by auto].
  apply (StableAndPanicMetrics_first_update (W:=atClock now)); [done..| |];
    by apply avgAt_record_new.
Qed.

Lemma UpdateMetricIntoWindow_then_StableAndPanicMetrics_witness :
  StableAndPanicMetrics (W := atClock (35 * Second))
    (KPA_UpdateMetricIntoWindow (NewKPAMetricsClient aFetcher) aKey (35 * Second) 10%float).1
    aKey (35 * Second) = (10%float, 10%float, None).
Proof.
  destruct (UpdateMetricIntoWindow_then_StableAndPanicMetrics (35 * Second)
              (NewKPAMetricsClient aFetcher) aKey 10%float)
    as (_ & _ & _ & s & p & Hr & _ & _ & Hv).
  - unfold validDurations. cbn. unfold Second. lia.
  - reflexivity.
  - reflexivity.
  - destruct Hv as [-> ->]; [|exact Hr].
    intros H. apply (f_equal (fun x => PrimFloat.div 1 x)) in H.
    vm_compute in H. discriminate H.
Defined.

(** C4: for every list of per-instance values, UpdatePodListMetric forwards
    the sum of the list, not its mean, to UpdateMetricIntoWindow as the
    single sample of the tick: the windows of the key are recorded into with
    (now, sum), for the dual-window and for the single-window client.  The
    sum is accumulated from 0 in the order of the list; an empty list is
    accepted, and the sum 0 is still recorded. *)
Theorem UpdatePodListMetric_records_sum (W : TimeWindowImpl)
    (values : list float) (key : NamespaceNameMetric) (now : Time) :
  (forall c : KPAMetricsClient W,
     exists c',
       KPA_UpdatePodListMetric c values key now = Go.Returned (c', None) /\
       c' = (KPA_UpdateMetricIntoWindow c key now (sumMetricValue values)).1 /\
       panicWindowDict c' !! key =
         Some (Record (default (NewTimeWindow (panicDuration c) (kpaGranularity c))
                               (panicWindowDict c !! key))
                      now (sumMetricValue values)) /\
       stableWindowDict c' !! key =
         Some (Record (default (NewTimeWindow (stableDuration c) (kpaGranularity c))
                               (stableWindowDict c !! key))
                      now (sumMetricValue values))) /\
  (forall c : APAMetricsClient W,
     exists c',
       APA_UpdatePodListMetric c values key now = Go.Returned (c', None) /\
       c' = (APA_UpdateMetricIntoWindow c key now (sumMetricValue values)).1 /\
       windowDict c' !! key =
         Some (Record (default (NewTimeWindow (apaDuration c) (apaGranularity c))
                               (windowDict c !! key))
                      now (sumMetricValue values))) /\
  sumMetricValue [] = 0%float /\
  (forall v1 v2 v3, sumMetricValue [v1; v2; v3] = (0 + v1 + v2 + v3)%float) /\
  (forall v, sumMetricValue (values ++ [v]) = (sumMetricValue values + v)%float) /\
  sumMetricValue [1; 2; 6]%float = 9%float.
Proof.
  repeat split.
  - intros c. eexists. split; [apply KPA_UpdatePodListMetric_eq|].
    split; [done|]. simpl. by rewrite !updateWindow_lookup.
  - intros c. eexists. split; [apply APA_UpdatePodListMetric_eq|].
    split; [done|]. simpl. by rewrite !updateWindow_lookup.
  - intros v. unfold sumMetricValue. by rewrite foldl_snoc.
Qed.

(** C10: UpdatePodListMetric of the base PodMetricClient panics with
    "implement me" on every input: it never returns, neither a nil nor a
    non-nil error.  The same entry point of the KPA and of the APA client
    returns, with a nil error, on every input. *)
Theorem PodMetricClient_UpdatePodListMetric_panics (c : PodMetricClient)
    (values : list float) (key : NamespaceNameMetric) (now : Time) :
  UpdatePodListMetric c values key now = Go.Panicked "implement me" /\
  ~ Go.returns (UpdatePodListMetric c values key now) /\
  (forall (W : TimeWindowImpl) (kpa : KPAMetricsClient W),
     exists kpa', UpdatePodListMetric kpa values key now = Go.Returned (kpa', None)) /\
  (forall (W : TimeWindowImpl) (apa : APAMetricsClient W),
     exists apa', UpdatePodListMetric apa values key now = Go.Returned (apa', None)).
Proof.
  split; [reflexivity|]. split.
  - intros [a Ha]. discriminate Ha.
  - split; intros W x; eexists; reflexivity.
Qed.

End ClientClaims.

Section WindowClaims.
Import time metrics.

(** The scenario of the design document: granularity 1s, duration 10s, the
    value 5 recorded at t = 0, 1, ..., 9 seconds. *)
Definition fiveAt0to9 : ring :=
  foldl (fun w t => record w (t * Second) 5%float) (newRing (10 * Second) Second)
        [0; 1; 2; 3; 4; 5; 6; 7; 8; 9].

Example fiveAt0to9_Avg10 : avgAt fiveAt0to9 (10 * Second) = Ok 5%float.
Proof. vm_compute. reflexivity. Qed.

Example fiveAt0to9_Avg20 : avgAt fiveAt0to9 (20 * Second) = Err EmptyWindow.
Proof. vm_compute. reflexivity. Qed.

(** Stale buckets are absent, not zero: at t = 15s five samples are left,
    and their mean is 5, not 2.5. *)
Example fiveAt0to9_Avg15 : avgAt fiveAt0to9 (15 * Second) = Ok 5%float.
Proof. vm_compute. reflexivity. Qed.

(** The single-window client fed with the same samples. *)
Definition apaFiveAt0to9 (clock : Time) : APAMetricsClient (atClock clock) :=
  foldl (fun c t => (APA_UpdateMetricIntoWindow c aKey (t * Second) 5%float).1)
        (NewAPAMetricsClient aFetcher)
        [0; 1; 2; 3; 4; 5; 6; 7; 8; 9].

Definition apaWindowFiveAt0to9 : ring :=
  foldl (fun w t => record w (t * Second) 5%float) (newRing (60 * Second) Second)
        [0; 1; 2; 3; 4; 5; 6; 7; 8; 9].

Definition readResult (r : result float) : float * option error :=
  match r with
  | Ok v => (v, None)
  | Err e => ((-1)%float, Some (WindowError e))
  end.

(** C2: for every window and query time now, Avg at now is the unweighted
    mean of the populated buckets whose start lies in [now-duration, now]
    (buckets outside of the range contribute nothing), and it fails with
    EmptyWindow exactly when no bucket in that range is populated.  The
    instant now is the one the window takes its range at; the now argument
    of the readers GetMetricValue and StableAndPanicMetrics is not passed to
    Avg, and their result does not depend on it. *)
Theorem Avg_unweighted_mean_of_range :
  (forall (w : ring) (now : Time),
     avgAt w now =
     match validSamples w now with
     | [] => Err EmptyWindow
     | _ :: _ => Ok (unweightedMean (validSamples w now))
     end) /\
  (forall (w : ring) (now : Time),
     validSamples w now =
     bucketValue <$>
       filter (fun b => populated b = true /\
                        now - duration w <= bucketStart b <= now) (buckets w)) /\
  (forall (w : ring) (now : Time),
     avgAt w now = Err EmptyWindow <->
     forall b, b ∈ buckets w ->
       ~ (populated b = true /\ now - duration w <= bucketStart b <= now)) /\
  (forall (W : TimeWindowImpl) (c : APAMetricsClient W) key (now now' : Time),
     GetMetricValue c key now = GetMetricValue c key now') /\
  (forall (W : TimeWindowImpl) (c : KPAMetricsClient W) key (now now' : Time),
     StableAndPanicMetrics c key now = StableAndPanicMetrics c key now').
Proof.
  assert (forall (w : ring) now b,
            inRange w now b = true <->
            populated b = true /\ now - duration w <= bucketStart b <= now) as Hin.
  { intros w now b. unfold inRange.
    rewrite !andb_true_iff, !Z.leb_le. tauto. }
  split; [apply avgAt_unweightedMean|].
  split.
  { intros w now. unfold validSamples. f_equal.
    apply list_filter_iff. intros b. apply Hin. }
  split.
  { intros w now. rewrite avgAt_EmptyWindow, validSamples_nil.
    split; intros H b Hb; specialize (H b Hb).
    - rewrite <- Hin. by rewrite H.
    - rewrite <- Hin in H. by destruct (inRange w now b). }
  split; intros; reflexivity.
Qed.

(** The average a reader gets is not the one of the range that ends at the
    reader's now: whatever the instant [clock] of the window, the reads at
    now = 10s and at now = 100s give the same, while the averages over the
    ranges that end at 10s and at 100s differ. *)
Lemma reader_now_not_the_range_end :
  ~ exists clock : Time,
      forall (now : Time) (window : ring),
        windowDict (apaFiveAt0to9 clock) !! aKey = Some window ->
        GetMetricValue (apaFiveAt0to9 clock) aKey now = readResult (avgAt window now).
Proof.
  intros [clock H].
  assert (windowDict (apaFiveAt0to9 clock) !! aKey = Some apaWindowFiveAt0to9) as Hw
    by (vm_compute; reflexivity).
  pose proof (H (10 * Second) _ Hw) as H10.
  pose proof (H (100 * Second) _ Hw) as H100.
  rewrite (GetMetricValue_now _ _ _ (100 * Second)) in H10.
  rewrite H100 in H10. vm_compute in H10. discriminate H10.
Qed.

(** With a window that takes its range at 10s, the read at now = 100s still
    gives 5; the range that ends at 100s holds no sample. *)
Example GetMetricValue_at_100s :
  GetMetricValue (apaFiveAt0to9 (10 * Second)) aKey (100 * Second) = (5%float, None) /\
  avgAt apaWindowFiveAt0to9 (100 * Second) = Err EmptyWindow.
Proof. split; vm_compute; reflexivity. Qed.

End WindowClaims.

(** ** The store refresh *)

Section StoreFacts.
Import cache.
Context {P : Package}.
Variable ParseMetricsURL : string -> gmap string MetricFamily * option string.

Implicit Types (c : Store) (podName : string) (pod : corev1.Pod).

(** The two rows of a pod are made. *)
Definition rowsPresent podName c : Prop :=
  is_Some (PodMetrics c !! podName) /\ is_Some (PodModelMetrics c !! podName).

(** Events that are neither a lock operation nor a scrape. *)
Definition quiet (e : event) : Prop :=
  match e with
  | Log _ _ _ | Query _ => True
  | Lock | Unlock | Scrape _ => False
  end.

(** [c'] comes from [c] by steps for the pod [podName]: only the rows of
    that pod are written, rows that are made stay made, and the events added
    are quiet. *)
Definition stepsFor podName c c' : Prop :=
  prometheusApi c' = prometheusApi c /\
  Pods c' = Pods c /\
  PodToModelMapping c' = PodToModelMapping c /\
  (forall name, name <> podName ->
     PodMetrics c' !! name = PodMetrics c !! name /\
     PodModelMetrics c' !! name = PodModelMetrics c !! name) /\
  (rowsPresent podName c -> rowsPresent podName c') /\
  exists evs, events c' = events c ++ evs /\ Forall quiet evs.

(** [c'] comes from [c] by quiet events only. *)
Definition onlyLogs c c' : Prop :=
  prometheusApi c' = prometheusApi c /\
  Pods c' = Pods c /\
  PodToModelMapping c' = PodToModelMapping c /\
  PodMetrics c' = PodMetrics c /\
  PodModelMetrics c' = PodModelMetrics c /\
  exists evs, events c' = events c ++ evs /\ Forall quiet evs.

#[global] Instance stepsFor_refl podName : Reflexive (stepsFor podName).
Proof.
  intros c. unfold stepsFor. split_and!; try done.
  exists []. by rewrite app_nil_r.
Qed.

#[global] Instance stepsFor_trans podName : Transitive (stepsFor podName).
Proof.
  intros c1 c2 c3 (Ha & Hb & Hm & Hrows & Hpres & evs & Hev & Hq)
    (Ha' & Hb' & Hm' & Hrows' & Hpres' & evs' & Hev' & Hq').
  unfold stepsFor. split_and!; try congruence.
  - intros name Hne. destruct (Hrows name Hne) as [E1 E2].
    destruct (Hrows' name Hne) as [E1' E2']. split; congruence.
  - intros H. by apply Hpres', Hpres.
  - exists (evs ++ evs'). rewrite Hev', Hev, app_assoc. split; [done|].
    by apply Forall_app.
Qed.

#[global] Instance onlyLogs_refl : Reflexive onlyLogs.
Proof.
  intros c. unfold onlyLogs. split_and!; try done.
  exists []. by rewrite app_nil_r.
Qed.

#[global] Instance onlyLogs_trans : Transitive onlyLogs.
Proof.
  intros c1 c2 c3 (Ha & Hb & Hm & Ht & Hu & evs & Hev & Hq)
    (Ha' & Hb' & Hm' & Ht' & Hu' & evs' & Hev' & Hq').
  unfold onlyLogs. split_and!; try congruence.
  exists (evs ++ evs'). rewrite Hev', Hev, app_assoc. split; [done|].
  by apply Forall_app.
Qed.

Lemma onlyLogs_emit c e : quiet e -> onlyLogs c (emit c e).
Proof.
  intros He. unfold onlyLogs. split_and!; try done.
  exists [e]. split; [done|]. by constructor.
Qed.

Lemma onlyLogs_stepsFor podName c c' : onlyLogs c c' -> stepsFor podName c c'.
Proof.
  intros (Ha & Hb & Hm & Ht & Hu & Hev). unfold stepsFor, rowsPresent.
  rewrite Ht, Hu. split_and!; done.
Qed.

Lemma stepsFor_emit podName c e : quiet e -> stepsFor podName c (emit c e).
Proof. intros He. by apply onlyLogs_stepsFor, onlyLogs_emit. Qed.

Lemma stepsFor_setPodMetrics podName c row :
  stepsFor podName c (setPodMetrics c (<[podName := row]> (PodMetrics c))).
Proof.
  unfold stepsFor, rowsPresent. simpl. split_and!; try done.
  - intros name Hne. by rewrite lookup_insert_ne.
  - intros [_ H]. by rewrite lookup_insert_eq.
  - exists []. by rewrite app_nil_r.
Qed.

Lemma stepsFor_setPodModelMetrics podName c models :
  stepsFor podName c (setPodModelMetrics c (<[podName := models]> (PodModelMetrics c))).
Proof.
  unfold stepsFor, rowsPresent. simpl. split_and!; try done.
  - intros name Hne. by rewrite lookup_insert_ne.
  - intros [H _]. by rewrite lookup_insert_eq.
  - exists []. by rewrite app_nil_r.
Qed.

(** A loop goes through when its body does, and relates the stores as the
    body does. *)
Lemma forEach_rel {A} (R : relation Store) (Pre : Store -> Prop)
    `{!Reflexive R, !Transitive R} (l : list A) (body : A -> Store -> Go.outcome Store) :
  (forall c c', Pre c -> R c c' -> Pre c') ->
  (forall x c, x ∈ l -> Pre c -> exists c', body x c = Go.Returned c' /\ R c c') ->
  forall c, Pre c -> exists c', forEach l body c = Go.Returned c' /\ R c c'.
Proof.
  intros Hpre. induction l as [|x l IH]; intros Hbody c Hc; simpl.
  { by exists c. }
  destruct (Hbody x c) as (c1 & -> & H1); [by left | done |]. simpl.
  destruct (IH (fun y c Hy => Hbody y c (list_elem_of_further _ _ _ Hy)) c1)
    as (c2 & -> & H2); [by eapply Hpre|].
  exists c2. split; [done|]. by etrans.
Qed.


(** [updatePodRecordLocked] on a pod whose rows are made: it returns, and a
    call that returns an error leaves the store as it was. *)
Lemma updatePodRecordLocked_steps c podName modelName metricName scope value :
  rowsPresent podName c ->
  exists c' err,
    updatePodRecordLocked c podName modelName metricName scope value
      = Go.Returned (c', err) /\
    stepsFor podName c c' /\
    (is_Some err -> c' = c).
Proof.
  intros [[row Hrow] [models Hmodels]]. unfold updatePodRecordLocked.
  destruct scope as [| |other].
  - case_decide.
    + eexists _, _. split; [done|]. split; [reflexivity | done].
    + rewrite Hrow. eexists _, _. split; [done|].
      split; [apply stepsFor_setPodMetrics | by intros [? [=]]].
  - case_decide.
    + eexists _, _. split; [done|]. split; [reflexivity | done].
    + rewrite Hmodels.
      assert (exists row', (if decide (size (default ∅ (models !! modelName)) = 0%nat)
                            then <[modelName := ∅]> models else models) !! modelName
                           = Some row') as [row' ->].
      { case_decide as Hsize.
        - rewrite lookup_insert_eq. by eexists.
        - destruct (models !! modelName) as [r|]; [by eexists|].
          by destruct Hsize. }
      eexists _, _. split; [done|].
      split; [apply stepsFor_setPodModelMetrics | by intros [? [=]]].
  - eexists _, _. split; [done|]. split; [reflexivity | done].
Qed.

Lemma stepsFor_rowsPresent podName c c' :
  rowsPresent podName c -> stepsFor podName c c' -> rowsPresent podName c'.
Proof. intros Hc (_ & _ & _ & _ & Hpres & _). by apply Hpres. Qed.

Lemma recordSample_steps pod modelName metricName scope value shown c :
  rowsPresent (corev1.Name pod) c ->
  exists c', recordSample pod modelName metricName scope value shown c = Go.Returned c' /\
             stepsFor (corev1.Name pod) c c'.
Proof.
  intros Hc. unfold recordSample.
  destruct (updatePodRecordLocked_steps c (corev1.Name pod) modelName metricName
              scope value Hc) as (c1 & err & -> & H1 & _).
  simpl. destruct err as [e|]; eexists; (split; [done|]);
    (etrans; [exact H1|]); by apply stepsFor_emit.
Qed.

(** The three families read from the scrape: they go through and write the
    rows of the pod only. *)
Lemma updateSimpleMetricFromRawMetricsLocked_steps pod allMetrics c :
  rowsPresent (corev1.Name pod) c ->
  exists c', updateSimpleMetricFromRawMetricsLocked pod allMetrics c = Go.Returned c' /\
             stepsFor (corev1.Name pod) c c'.
Proof.
  apply (forEach_rel _ (rowsPresent (corev1.Name pod))); [apply stepsFor_rowsPresent|].
  intros metricName c0 _ Hc0.
  destruct (Metrics !! metricName) as [metric|];
    [|eexists; split; [done|]; by apply stepsFor_emit].
  destruct (allMetrics !! _) as [metricFamily|];
    [|eexists; split; [done|]; by apply stepsFor_emit].
  revert c0 Hc0.
  apply (forEach_rel _ (rowsPresent (corev1.Name pod))); [apply stepsFor_rowsPresent|].
  intros familyMetric c1 _ Hc1.
  destruct (GetCounterGaugeValue _ _) as [metricValue|err].
  - by apply recordSample_steps.
  - eexists; split; [done|]. by apply stepsFor_emit.
Qed.

Lemma updateHistogramMetricFromRawMetricsLocked_steps pod allMetrics c :
  rowsPresent (corev1.Name pod) c ->
  exists c', updateHistogramMetricFromRawMetricsLocked pod allMetrics c = Go.Returned c' /\
             stepsFor (corev1.Name pod) c c'.
Proof.
  apply (forEach_rel _ (rowsPresent (corev1.Name pod))); [apply stepsFor_rowsPresent|].
  intros metricName c0 _ Hc0.
  destruct (Metrics !! metricName) as [metric|];
    [|eexists; split; [done|]; by apply stepsFor_emit].
  destruct (allMetrics !! _) as [metricFamily|];
    [|eexists; split; [done|]; by apply stepsFor_emit].
  revert c0 Hc0.
  apply (forEach_rel _ (rowsPresent (corev1.Name pod))); [apply stepsFor_rowsPresent|].
  intros familyMetric c1 _ Hc1.
  destruct (GetHistogramValue _) as [metricValue|err].
  - by apply recordSample_steps.
  - eexists; split; [done|]. by apply stepsFor_emit.
Qed.

Lemma updateQueryLabelMetricFromRawMetricsLocked_steps pod allMetrics c :
  rowsPresent (corev1.Name pod) c ->
  exists c', updateQueryLabelMetricFromRawMetricsLocked pod allMetrics c = Go.Returned c' /\
             stepsFor (corev1.Name pod) c c'.
Proof.
  apply (forEach_rel _ (rowsPresent (corev1.Name pod))); [apply stepsFor_rowsPresent|].
  intros metricName c0 _ Hc0.
  destruct (Metrics !! metricName) as [metric|];
    [|eexists; split; [done|]; by apply stepsFor_emit].
  cbv zeta. destruct (allMetrics !! _) as [metricFamily|];
    [|eexists; split; [done|]; by apply stepsFor_emit].
  revert c0 Hc0.
  apply (forEach_rel _ (rowsPresent (corev1.Name pod))); [apply stepsFor_rowsPresent|].
  intros familyMetric c1 _ Hc1. by apply recordSample_steps.
Qed.




(** The metrics resolved by query, with a Prometheus client. *)
Definition queryReady podName c : Prop :=
  rowsPresent podName c /\ is_Some (prometheusApi c).

Lemma stepsFor_queryReady podName c c' :
  queryReady podName c -> stepsFor podName c c' -> queryReady podName c'.
Proof.
  intros [Hrows Hapi] Hsteps. split; [by eapply stepsFor_rowsPresent|].
  destruct Hsteps as (-> & _). done.
Qed.

Lemma queryUpdatePromQLMetricsLocked_steps metric queryLabels podName modelName
    metricName c :
  queryReady podName c ->
  exists r,
    queryUpdatePromQLMetricsLocked metric queryLabels podName modelName metricName c
      = Go.Returned r /\
    stepsFor podName c (logQueryError r).
Proof.
  intros [Hrows [api Hapi]]. unfold queryUpdatePromQLMetricsLocked. rewrite Hapi.
  set (c1 := emit c (Query _)).
  assert (stepsFor podName c c1) as H1 by (by apply stepsFor_emit).
  destruct (api _) as [[result warnings]|err].
  2: { eexists. split; [done|]. unfold logQueryError. simpl.
       etrans; [exact H1|]. by apply stepsFor_emit. }
  set (c2 := if decide _ then _ else c1).
  assert (stepsFor podName c c2) as H2.
  { unfold c2. case_decide; [|done]. etrans; [exact H1|]. by apply stepsFor_emit. }
  destruct (updatePodRecordLocked_steps c2 podName modelName metricName
              (Scope metric) (PrometheusMetricValue result))
    as (c3 & err & -> & H3 & _); [by eapply stepsFor_rowsPresent|].
  simpl. destruct err as [e|]; eexists; (split; [done|]); unfold logQueryError; simpl.
  - etrans; [exact H2|]. etrans; [exact H3|]. by apply stepsFor_emit.
  - etrans; [exact H2|]. etrans; [exact H3|]. by apply stepsFor_emit.
Qed.

Lemma updateMetricFromPromQLLocked_steps pod c :
  queryReady (corev1.Name pod) c ->
  exists c', updateMetricFromPromQLLocked pod c = Go.Returned c' /\
             stepsFor (corev1.Name pod) c c'.
Proof.
  apply (forEach_rel _ (queryReady (corev1.Name pod))); [apply stepsFor_queryReady|].
  intros metricName c0 _ Hc0.
  cbv zeta. destruct (Metrics !! metricName) as [metric|];
    [|eexists; split; [done|]; by apply stepsFor_emit].
  destruct (Scope metric) as [| |other] eqn:Hscope.
  - cbv zeta. destruct (queryUpdatePromQLMetricsLocked_steps metric
                {[ "instance" := corev1.PodIP pod +:+ ":8000" ]}
                (corev1.Name pod) "" metricName c0 Hc0) as (r & -> & Hr).
    simpl. by eexists.
  - destruct (PodToModelMapping c0 !! corev1.Name pod) as [modelNames|];
      [|eexists; split; [done|]; by apply stepsFor_emit].
    revert c0 Hc0.
    apply (forEach_rel _ (queryReady (corev1.Name pod))); [apply stepsFor_queryReady|].
    intros modelName c1 _ Hc1. cbv zeta.
    destruct (queryUpdatePromQLMetricsLocked_steps metric
                (<["model_name" := modelName]> {[ "instance" := corev1.PodIP pod +:+ ":8000" ]})
                (corev1.Name pod) modelName metricName c1 Hc1) as (r & -> & Hr).
    simpl. by eexists.
  - eexists; split; [done|]. by apply stepsFor_emit.
Qed.

(** *** One pod, and the cycle *)

Lemma ensureRows_rowsPresent podName c : rowsPresent podName (ensureRows podName c).
Proof.
  unfold ensureRows, rowsPresent.
  repeat case_decide; simpl in *; rewrite ?lookup_insert_eq; split; try done;
    match goal with
    | H : size (default ∅ ?x) ≠ 0%nat |- is_Some ?x =>
        destruct x; [done | by destruct H]
    end.
Qed.

Lemma ensureRows_frame podName c :
  prometheusApi (ensureRows podName c) = prometheusApi c /\
  Pods (ensureRows podName c) = Pods c /\
  PodToModelMapping (ensureRows podName c) = PodToModelMapping c /\
  events (ensureRows podName c) = events c /\
  forall name, name <> podName ->
    PodMetrics (ensureRows podName c) !! name = PodMetrics c !! name /\
    PodModelMetrics (ensureRows podName c) !! name = PodModelMetrics c !! name.
Proof.
  unfold ensureRows. repeat case_decide; simpl; split_and!; try done;
    intros name Hne; rewrite ?lookup_insert_ne by done; done.
Qed.

(** A row that holds a metric is left as it is. *)
Lemma ensureRows_nonempty podName c :
  size (default ∅ (PodMetrics c !! podName)) <> 0%nat ->
  size (default ∅ (PodModelMetrics c !! podName)) <> 0%nat ->
  ensureRows podName c = c.
Proof.
  intros H1 H2. unfold ensureRows.
  destruct (decide (size (default ∅ (PodMetrics c !! podName)) = 0%nat)); [done|].
  destruct (decide (size (default ∅ (PodModelMetrics c !! podName)) = 0%nat)); done.
Qed.

(** What the step of one pod does to the store: the rows of the other pods,
    the pods, the mapping and the Prometheus client stay, and the events
    added are the scrape of the pod followed by quiet events. *)
Definition podStep pod c c' : Prop :=
  prometheusApi c' = prometheusApi c /\
  Pods c' = Pods c /\
  PodToModelMapping c' = PodToModelMapping c /\
  (forall name, name <> corev1.Name pod ->
     PodMetrics c' !! name = PodMetrics c !! name /\
     PodModelMetrics c' !! name = PodModelMetrics c !! name) /\
  exists evs, events c' = events c ++ Scrape (metricsURL pod) :: evs /\ Forall quiet evs.

Definition parseFailed (err : string) : event :=
  Log 4 "Error parsing metric families: %v\n" [AStr err].

Definition prometheusSkipped : event :=
  Log 4 "Prometheus api is not initialized, PROMETHEUS_ENDPOINT is not configured, skip fetching prometheus metrics" [].

(** The store and the families the updaters of a pod start from. *)
Definition scraped pod c : gmap string MetricFamily * Store :=
  let c := emit (ensureRows (corev1.Name pod) c) (Scrape (metricsURL pod)) in
  let '(allMetrics, err) := ParseMetricsURL (metricsURL pod) in
  (allMetrics,
   match err with
   | Some err => emit c (parseFailed err)
   | None => c
   end).

Lemma updateOnePod_unfold pod c :
  updateOnePod ParseMetricsURL pod c =
  (c1 ← updateSimpleMetricFromRawMetricsLocked pod (scraped pod c).1 (scraped pod c).2;
   c2 ← updateHistogramMetricFromRawMetricsLocked pod (scraped pod c).1 c1;
   c3 ← updateQueryLabelMetricFromRawMetricsLocked pod (scraped pod c).1 c2;
   match prometheusApi c3 with
   | None => Go.Returned (emit c3 prometheusSkipped)
   | Some _ => updateMetricFromPromQLLocked pod c3
   end).
Proof.
  unfold updateOnePod, scraped.
  by destruct (ParseMetricsURL (metricsURL pod)) as [allMetrics [err|]].
Qed.

Lemma scraped_steps pod c :
  rowsPresent (corev1.Name pod) (scraped pod c).2 /\
  prometheusApi (scraped pod c).2 = prometheusApi c /\
  Pods (scraped pod c).2 = Pods c /\
  PodToModelMapping (scraped pod c).2 = PodToModelMapping c /\
  (forall name, name <> corev1.Name pod ->
     PodMetrics (scraped pod c).2 !! name = PodMetrics c !! name /\
     PodModelMetrics (scraped pod c).2 !! name = PodModelMetrics c !! name) /\
  PodMetrics (scraped pod c).2 = PodMetrics (ensureRows (corev1.Name pod) c) /\
  PodModelMetrics (scraped pod c).2 = PodModelMetrics (ensureRows (corev1.Name pod) c) /\
  exists evs, events (scraped pod c).2 = events c ++ Scrape (metricsURL pod) :: evs /\
              Forall quiet evs /\
              forall err, (ParseMetricsURL (metricsURL pod)).2 = Some err ->
                          evs = [parseFailed err].
Proof.
  pose proof (ensureRows_rowsPresent (corev1.Name pod) c) as Hrows.
  destruct (ensureRows_frame (corev1.Name pod) c) as (Ha & Hb & Hm & He & Hf).
  unfold scraped.
  destruct (ParseMetricsURL (metricsURL pod)) as [allMetrics [err|]];
    simpl; split_and!; try done.
  - exists [parseFailed err]. rewrite He, <- app_assoc. split_and!; [done| |].
    + by repeat constructor.
    + by intros ? [= <-].
  - exists []. rewrite He. split_and!; [done|done|]. intros ? [=].
Qed.

Lemma updateOnePod_from_scraped pod c :
  exists c', updateOnePod ParseMetricsURL pod c = Go.Returned c' /\
             stepsFor (corev1.Name pod) (scraped pod c).2 c'.
Proof.
  rewrite updateOnePod_unfold.
  destruct (scraped_steps pod c) as (Hrows & _).
  destruct (updateSimpleMetricFromRawMetricsLocked_steps pod (scraped pod c).1 _ Hrows)
    as (c1 & -> & H1). simpl.
  destruct (updateHistogramMetricFromRawMetricsLocked_steps pod (scraped pod c).1 c1)
    as (c2 & -> & H2); [by eapply stepsFor_rowsPresent|]. simpl.
  destruct (updateQueryLabelMetricFromRawMetricsLocked_steps pod (scraped pod c).1 c2)
    as (c3 & -> & H3);
    [eapply stepsFor_rowsPresent; [|exact H2]; by eapply stepsFor_rowsPresent|]. simpl.
  assert (stepsFor (corev1.Name pod) (scraped pod c).2 c3) as H13
    by (etrans; [exact H1|]; etrans; [exact H2|]; exact H3).
  assert (exists c', match prometheusApi c3 with
                     | None => Go.Returned (emit c3 prometheusSkipped)
                     | Some _ => updateMetricFromPromQLLocked pod c3
                     end = Go.Returned c' /\ stepsFor (corev1.Name pod) c3 c')
    as (c' & -> & H4).
  { destruct (prometheusApi c3) as [api|] eqn:Hapi.
    - apply updateMetricFromPromQLLocked_steps. split; [|by rewrite Hapi].
      by eapply stepsFor_rowsPresent.
    - eexists. split; [done|]. by apply stepsFor_emit. }
  exists c'. split; [done|]. etrans; [exact H13|]. exact H4.
Qed.

Lemma updateOnePod_step pod c :
  exists c', updateOnePod ParseMetricsURL pod c = Go.Returned c' /\ podStep pod c c'.
Proof.
  destruct (updateOnePod_from_scraped pod c) as (c' & Hc' & H).
  exists c'. split; [done|].
  destruct (scraped_steps pod c)
    as (Hrows & Ha & Hb & Hm & Hf & _ & _ & evs0 & Hev0 & Hq0 & _).
  destruct H as (Ha' & Hb' & Hm' & Hf' & _ & evs & Hev & Hq).
  unfold podStep. split_and!; try congruence.
  - intros name Hne. destruct (Hf name Hne) as [E1 E2].
    destruct (Hf' name Hne) as [E1' E2']. split; congruence.
  - exists (evs0 ++ evs). rewrite Hev, Hev0, <- app_assoc. split; [done|].
    by apply Forall_app.
Qed.

(** The URLs scraped, in order. *)
Definition scrapes (evs : list event) : list string :=
  omap (fun e => match e with Scrape url => Some url | _ => None end) evs.

Definition lockOp (e : event) : Prop := e = Lock \/ e = Unlock.

Lemma quiet_no_lockOp evs : Forall quiet evs -> Forall (fun e => ~ lockOp e) evs.
Proof.
  intros H. eapply Forall_impl; [exact H|]. intros e He [-> | ->]; exact He.
Qed.

Lemma quiet_scrapes evs : Forall quiet evs -> scrapes evs = [].
Proof.
  induction 1 as [|e evs He _ IH]; [done|].
  destruct e; try done; exact IH.
Qed.

Lemma scrapes_app evs1 evs2 : scrapes (evs1 ++ evs2) = scrapes evs1 ++ scrapes evs2.
Proof. apply omap_app. Qed.

(** What the loop over the ready pods does: a scrape per pod, in the order
    of the pods, and no lock operation. *)
Definition cycleSteps (pods : list corev1.Pod) c c' : Prop :=
  prometheusApi c' = prometheusApi c /\
  Pods c' = Pods c /\
  PodToModelMapping c' = PodToModelMapping c /\
  exists evs, events c' = events c ++ evs /\
              Forall (fun e => ~ lockOp e) evs /\
              scrapes evs = metricsURL <$> pods.

Lemma forEach_updateOnePod pods c :
  exists c', forEach pods (updateOnePod ParseMetricsURL) c = Go.Returned c' /\
             cycleSteps pods c c'.
Proof.
  revert c. induction pods as [|pod pods IH]; intros c; simpl.
  { exists c. split; [done|]. unfold cycleSteps. split_and!; try done.
    exists []. by rewrite app_nil_r. }
  destruct (updateOnePod_step pod c) as (c1 & -> & Ha & Hb & Hm & _ & evs & Hev & Hq).
  simpl. destruct (IH c1) as (c2 & -> & Ha' & Hb' & Hm' & evs' & Hev' & Hq' & Hs').
  exists c2. split; [done|]. unfold cycleSteps. split_and!; try congruence.
  exists ((Scrape (metricsURL pod) :: evs) ++ evs').
  rewrite Hev', Hev, <- app_assoc. split_and!; [done| |].
  - apply Forall_app. split; [|done]. constructor.
    + by intros [|].
    + by apply quiet_no_lockOp.
  - rewrite scrapes_app, Hs'. unfold scrapes at 1. simpl.
    fold (scrapes evs). by rewrite quiet_scrapes.
Qed.

(** [updatePodMetrics] returns, and what it did is: [Lock], the loop over
    the ready pods, [Unlock]. *)
Lemma updatePodMetrics_trace c :
  exists c' body,
    updatePodMetrics ParseMetricsURL c = Go.Returned c' /\
    events c' = events c ++ Lock :: body ++ [Unlock] /\
    Forall (fun e => ~ lockOp e) body /\
    scrapes body = metricsURL <$> FilterReadyPods (Pods c).
Proof.
  unfold updatePodMetrics. cbn [Pods emit].
  case_decide as Hlen.
  - exists (emit (emit c Lock) Unlock), []. simpl.
    rewrite <- app_assoc. split_and!; try done.
    by destruct (FilterReadyPods (Pods c)).
  - destruct (forEach_updateOnePod (FilterReadyPods (Pods c)) (emit c Lock))
      as (c1 & -> & _ & _ & _ & evs & Hev & Hq & Hs).
    simpl. exists (emit c1 Unlock), evs. simpl. rewrite Hev. simpl.
    rewrite <- !app_assoc. done.
Qed.

End StoreFacts.


(** The lock is released between the scrapes of two instances: no two
    scrapes without an [Unlock] between them.  [scraped] tells that a scrape
    was seen since the last [Unlock]. *)
Fixpoint releasedBetweenScrapes (scraped : bool) (evs : list cache.event) : bool :=
  match evs with
  | [] => true
  | cache.Scrape _ :: rest =>
      if scraped then false else releasedBetweenScrapes true rest
  | cache.Unlock :: rest => releasedBetweenScrapes false rest
  | _ :: rest => releasedBetweenScrapes scraped rest
  end.

Section LockFacts.
Import cache.

Lemma releasedBetweenScrapes_second (body rest : list event) :
  Forall (fun e => ~ lockOp e) body -> scrapes body <> [] ->
  releasedBetweenScrapes true (body ++ rest) = false.
Proof.
  induction 1 as [|e body He _ IH]; [done|]. intros Hs.
  destruct e; simpl; try done.
  - apply IH. exact Hs.
  - destruct He. by right.
  - apply IH. exact Hs.
  - apply IH. exact Hs.
Qed.

Lemma releasedBetweenScrapes_two (body rest : list event) (scraped : bool) :
  Forall (fun e => ~ lockOp e) body -> (2 <= length (scrapes body))%nat ->
  releasedBetweenScrapes scraped (body ++ rest) = false.
Proof.
  intros Hbody. revert scraped.
  induction Hbody as [|e body He Hbody IH]; intros scraped Hs; [simpl in Hs; lia|].
  destruct e; simpl.
  - by apply IH.
  - destruct He. by right.
  - destruct scraped; [done|].
    apply releasedBetweenScrapes_second; [done|].
    change (scrapes (Scrape url :: body)) with (url :: scrapes body) in Hs.
    simpl in Hs. destruct (scrapes body); [simpl in Hs; lia | done].
  - by apply IH.
  - by apply IH.
Qed.

End LockFacts.

(** ** A store to run the refresh on *)

Module Example.
Import cache.

(** A raw sample is its [model_name] label and its value. *)
#[local] Instance package : Package := {|
  NumRequestsRunning := "num_requests_running";
  NumRequestsWaiting := "num_requests_waiting";
  NumRequestsSwapped := "num_requests_swapped";
  AvgPromptThroughputToksPerS := "avg_prompt_throughput_toks_per_s";
  AvgGenerationThroughputToksPerS := "avg_generation_throughput_toks_per_s";
  GPUCacheUsagePerc := "gpu_cache_usage_perc";
  CPUCacheUsagePerc := "cpu_cache_usage_perc";
  IterationTokensTotal := "iteration_tokens_total";
  TimeToFirstTokenSeconds := "time_to_first_token_seconds";
  TimePerOutputTokenSeconds := "time_per_output_token_seconds";
  E2ERequestLatencySeconds := "e2e_request_latency_seconds";
  RequestQueueTimeSeconds := "request_queue_time_seconds";
  RequestInferenceTimeSeconds := "request_inference_time_seconds";
  RequestDecodeTimeSeconds := "request_decode_time_seconds";
  RequestPrefillTimeSeconds := "request_prefill_time_seconds";
  P95TTFT5m := "p95_ttft_5m";
  P95TTFT5mPod := "p95_ttft_5m_pod";
  AvgTTFT5mPod := "avg_ttft_5m_pod";
  P95TPOT5mPod := "p95_tpot_5m_pod";
  AvgTPOT5mPod := "avg_tpot_5m_pod";
  AvgPromptToksPerReq := "avg_prompt_toks_per_req";
  AvgGenerationToksPerReq := "avg_generation_toks_per_req";
  AvgE2ELatencyPod := "avg_e2e_latency_pod";
  AvgRequestsPerMinPod := "avg_requests_rate_pod";
  AvgPromptThroughputToksPerMinPod := "avg_prompt_throughput_toks_per_min_pod";
  AvgGenerationThroughputToksPerMinPod := "avg_generation_throughput_toks_per_min_pod";
  MaxLora := "max_lora";
  WaitingLoraAdapters := "waiting_lora_adapters";
  RunningLoraAdapters := "running_lora_adapters";
  Metrics :=
    {[ "num_requests_running" :=
         {| Scope := PodModelMetricScope; RawMetricName := ""; PromQL := "" |};
       "gpu_cache_usage_perc" :=
         {| Scope := PodMetricScope; RawMetricName := ""; PromQL := "" |} ]};
  dtoMetric := string * float;
  dtoMetricType := unit;
  GetLabelValueForKey := fun m key =>
    if decide (key = "model_name") then (m.1, None) else ("", Some "label not found");
  GetCounterGaugeValue := fun m _ => inl m.2;
  GetHistogramValue := fun m => inr "not a histogram";
  BuildQuery := fun promQL _ => promQL;
  FilterReadyPods := fun pods =>
    filter (fun pod => corev1.Ready pod = true) (map_to_list pods).*2;
|}.

Definition podA : corev1.Pod :=
  {| corev1.Name := "pod-a"; corev1.PodIP := "10.0.0.1"; corev1.Ready := true |}.
Definition podB : corev1.Pod :=
  {| corev1.Name := "pod-b"; corev1.PodIP := "10.0.0.2"; corev1.Ready := true |}.

(** The scrape of [podA] fails; [podB] reports 3 running requests of the
    model llama. *)
Definition scrape (url : string) : gmap string MetricFamily * option string :=
  if decide (url = metricsURL podB) then
    ({[ "vllm:num_requests_running" :=
          {| familyType := (); familyMetric := [("llama", 3%float)] |} ]}, None)
  else (∅, Some "connection refused").

Definition store : Store :=
  {| prometheusApi := None;
     Pods := {[ "pod-a" := podA; "pod-b" := podB ]};
     PodMetrics := ∅; PodModelMetrics := ∅; PodToModelMapping := ∅;
     events := [] |}.

(** A fetcher that fails for [podA] only. *)
Definition fetcher : metrics.MetricFetcher := fun pod _ _ =>
  if decide (corev1.Name pod = "pod-a") then inr (metrics.FetchError "connection refused")
  else inl 3%float.

End Example.

Section StoreClaims.
Import cache.
Context {P : Package}.
Variable ParseMetricsURL : string -> gmap string MetricFamily * option string.


(** C5: the record update enforces the scope invariant.  A PodMetricScope
    update with a non-empty model name and a PodModelMetricScope update with
    an empty model name fail with the scope mismatch error, and a call that
    returns an error returns the store as it was: no entry of PodMetrics or
    PodModelMetrics is written. *)
Theorem updatePodRecordLocked_scope_mismatch (c : Store)
    (podName modelName metricName : string) (metricValue : MetricValue) :
  (modelName <> "" ->
   updatePodRecordLocked c podName modelName metricName PodMetricScope metricValue =
   Go.Returned (c, Some (ModelNameShouldBeEmpty PodMetricScope))) /\
  updatePodRecordLocked c podName "" metricName PodModelMetricScope metricValue =
    Go.Returned (c, Some (ModelNameShouldNotBeEmpty PodModelMetricScope)) /\
  isScopeMismatch (ModelNameShouldBeEmpty PodMetricScope) = true /\
  isScopeMismatch (ModelNameShouldNotBeEmpty PodModelMetricScope) = true /\
  (forall scope c' e,
     updatePodRecordLocked c podName modelName metricName scope metricValue =
       Go.Returned (c', Some e) ->
     c' = c /\ PodMetrics c' = PodMetrics c /\ PodModelMetrics c' = PodModelMetrics c).
Proof.
  split_and!; try done.
  - intros Hne. unfold updatePodRecordLocked. by rewrite decide_True.
  - intros scope c' e. unfold updatePodRecordLocked.
    destruct scope.
    + case_decide; [by intros [= <- _]|]. by destruct (PodMetrics c !! podName).
    + case_decide; [by intros [= <- _]|].
      destruct (PodModelMetrics c !! podName) as [models|]; [|done].
      by destruct (_ !! modelName).
    + by intros [= <- _].
Qed.



End StoreClaims.

Section RefreshClaims.
Import cache.



(** C9: during one refresh the exclusive lock of the store is taken once,
    before the ready pods are looked at, and released once, when the call
    returns: every scrape and every update of every ready pod of the cycle
    happens between this Lock and this Unlock, and no lock operation happens
    in between.  With two ready pods or more, the lock is not released
    between the updates of two instances. *)
Theorem updatePodMetrics_lock_spans_cycle (P : Package)
    (ParseMetricsURL : string -> gmap string MetricFamily * option string) (c : Store) :
  exists c' body,
    updatePodMetrics ParseMetricsURL c = Go.Returned c' /\
    events c' = events c ++ Lock :: body ++ [Unlock] /\
    Forall (fun e => e <> Lock /\ e <> Unlock) body /\
    scrapes body = metricsURL <$> FilterReadyPods (Pods c) /\
    ((2 <= length (FilterReadyPods (Pods c)))%nat ->
     releasedBetweenScrapes false (Lock :: body ++ [Unlock]) = false).
Proof.
  destruct (updatePodMetrics_trace ParseMetricsURL c) as (c' & body & Hc' & Hev & Hq & Hs).
  exists c', body. split_and!; try done.
  - eapply Forall_impl; [exact Hq|]. intros e He. unfold lockOp in He. tauto.
  - intros Hlen. simpl. apply releasedBetweenScrapes_two; [done|].
    by rewrite Hs, length_fmap.
Qed.

(** The lock operations and the scrapes among the events. *)
Definition lockAndScrapes (evs : list event) : list event :=
  List.filter
    (fun e => match e with Lock | Unlock | Scrape _ => true | _ => false end) evs.

(** The refresh of the example store, with its two ready pods: one Lock, the
    two scrapes, one Unlock. *)
Lemma updatePodMetrics_lock_not_per_instance :
  match updatePodMetrics (P := Example.package) Example.scrape Example.store with
  | Go.Returned c' =>
      lockAndScrapes (events c') =
        [Lock; Scrape "http://10.0.0.1:8000/metrics";
         Scrape "http://10.0.0.2:8000/metrics"; Unlock] /\
      releasedBetweenScrapes false (events c') = false
  | Go.Panicked _ => False
  end.
Proof. vm_compute. split; reflexivity. Qed.

End RefreshClaims.

Section IntervalClaims.
Import time cache.

Definition refreshEnv (value : option string) : string -> option string :=
  fun key =>
    if decide (key = "AIBRIX_POD_METRIC_REFRESH_INTERVAL_MS") then value else None.

Definition usingDefault : event :=
  Log 0 "using default refresh interval: %d ms" [AInt 50].

Definition fallingBack (value : string) : event :=
  Log 0 "invalid AIBRIX_POD_METRIC_REFRESH_INTERVAL_MS: %s, falling back to default"
    [AStr value].

Lemma wrap64_small (z : Z) : Go.minInt64 <= z <= Go.maxInt64 -> Go.wrap64 z = z.
Proof.
  unfold Go.wrap64, Go.minInt64, Go.maxInt64. intros H.
  rewrite Z.mod_small by lia. lia.
Qed.

Lemma LoadEnv_refreshEnv (value : option string) :
  utils.LoadEnv (refreshEnv value) "AIBRIX_POD_METRIC_REFRESH_INTERVAL_MS" "" =
  default "" value.
Proof.
  unfold utils.LoadEnv, refreshEnv. rewrite decide_True by done.
  destruct value as [s|]; [|done]. simpl. case_decide; congruence.
Qed.

(** The refresh interval: the default of 50ms when the variable is unset (or
    empty); [n] milliseconds when it holds a positive integer [n] whose
    milliseconds fit a [time.Duration]; the default, with the two log lines
    of the fallback, when it holds no integer or a non-positive one. *)
Lemma getPodMetricRefreshInterval_spec (value : option string) :
  let r := getPodMetricRefreshInterval (refreshEnv value) in
  (value = None \/ value = Some "" -> r = (50 * Millisecond, [usingDefault])) /\
  (forall s n, value = Some s -> strconv.Atoi s = Some n -> 0 < n ->
               n <= 9223372036854 -> r.1 = n * Millisecond) /\
  (forall s, value = Some s -> s <> "" ->
             (strconv.Atoi s = None \/ exists n, strconv.Atoi s = Some n /\ n <= 0) ->
             r = (50 * Millisecond, [fallingBack s; usingDefault])).
Proof.
  unfold getPodMetricRefreshInterval. rewrite LoadEnv_refreshEnv. cbv zeta.
  split_and!.
  - intros [-> | ->]; reflexivity.
  - intros s n -> Hs Hn Hmax.
    assert (s <> "") as Hne by (intros ->; discriminate Hs).
    cbn [default id]. rewrite decide_True by done.
    rewrite Hs, decide_False by lia. cbn [fst].
    apply wrap64_small. unfold Go.minInt64, Go.maxInt64, Millisecond. lia.
  - intros s -> Hne Hs.
    cbn [default id]. rewrite decide_True by done.
    destruct Hs as [-> | (n & -> & Hn)]; [done|].
    by rewrite decide_True by done.
Qed.

(** C8 at the value 9223372036855: the integer parses and is positive, the
    log line says that 9223372036855 ms are used, and the interval returned
    is the product wrapped around in 64 bits: a negative duration, not
    9223372036855 milliseconds.  The ticker of the refresh loop panics on
    it. *)
Theorem getPodMetricRefreshInterval_overflow :
  strconv.Atoi "9223372036855" = Some 9223372036855 /\
  getPodMetricRefreshInterval (refreshEnv (Some "9223372036855")) =
    (-9223372036854551616,
     [Log 0 "using AIBRIX_POD_METRIC_REFRESH_INTERVAL_MS env value for pod metrics refresh interval: %d ms"
        [AInt 9223372036855]]) /\
  -9223372036854551616 <> 9223372036855 * Millisecond /\
  initMetricsCache (refreshEnv (Some "9223372036855")) =
    Go.Panicked "non-positive interval for NewTicker".
Proof. split_and!; [reflexivity | reflexivity | discriminate | reflexivity]. Qed.

Example getPodMetricRefreshInterval_100 :
  (getPodMetricRefreshInterval (refreshEnv (Some "100"))).1 = 100 * Millisecond.
Proof. reflexivity. Qed.

Example getPodMetricRefreshInterval_unset :
  getPodMetricRefreshInterval (refreshEnv None) = (50 * Millisecond, [usingDefault]).
Proof. reflexivity. Qed.

Example getPodMetricRefreshInterval_not_an_integer :
  getPodMetricRefreshInterval (refreshEnv (Some "1e3")) =
  (50 * Millisecond, [fallingBack "1e3"; usingDefault]).
Proof. reflexivity. Qed.

Example getPodMetricRefreshInterval_zero :
  getPodMetricRefreshInterval (refreshEnv (Some "0")) =
  (50 * Millisecond, [fallingBack "0"; usingDefault]).
Proof. reflexivity. Qed.

(** C7: the trace-persistence loop aligns the start of its ticker when the
    current time is more than MaxRequestTraceIntervalOffset past a boundary
    of the write interval: with offset = now mod interval it waits once for
    interval - offset, which ends on a boundary, and then ticks every
    interval.  When the offset is at most MaxRequestTraceIntervalOffset it
    does not wait: the ticker starts at once, at most that far past a
    boundary.  Without a Redis client there is no loop. *)
Theorem initTraceCache_alignment (interval maxOffset now : Z) :
  0 < interval <= Go.maxInt64 ->
  0 <= maxOffset ->
  let offset := tickerOffset interval now in
  initTraceCache interval maxOffset false now = [] /\
  (maxOffset < offset ->
   initTraceCache interval maxOffset true now =
     [AlignmentTimer (interval - offset); Ticker interval] /\
   offset = now mod interval /\
   tickerStart interval maxOffset now = now + (interval - offset) /\
   tickerStart interval maxOffset now mod interval = 0) /\
  (offset <= maxOffset ->
   initTraceCache interval maxOffset true now = [Ticker interval] /\
   tickerStart interval maxOffset now = now /\
   (0 <= now -> tickerStart interval maxOffset now mod interval <= maxOffset)).
Proof.
  intros Hinterval Hmax offset.
  unfold initTraceCache, traceLoop, tickerStart, newTraceTimers.
  fold offset. split_and!; [done| |].
  - intros Hoff. rewrite decide_True by lia. simpl.
    assert (0 < now) as Hnow.
    { destruct (Z.le_gt_cases now 0) as [Hle|]; [|done].
      pose proof (Z.rem_nonpos now interval ltac:(lia) Hle).
      unfold offset, tickerOffset in *. lia. }
    assert (offset = now mod interval) as Hmod.
    { unfold offset, tickerOffset. apply Z.rem_mod_nonneg; lia. }
    pose proof (Z.mod_pos_bound now interval ltac:(lia)).
    rewrite wrap64_small by (unfold Go.minInt64, Go.maxInt64 in *; lia).
    split_and!; try done.
    rewrite Hmod.
    replace (now + (interval - now mod interval))
      with (now - now mod interval + 1 * interval) by lia.
    rewrite Z.mod_add by lia. rewrite <- Zminus_mod_idemp_l, Z.sub_diag. done.
  - intros Hoff. rewrite decide_False by lia. simpl. split_and!; try done.
    intros Hnow. unfold offset, tickerOffset in Hoff.
    rewrite Z.rem_mod_nonneg in Hoff by lia. done.
Qed.

Lemma initTraceCache_alignment_witness :
  initTraceCache (10 * Second) (500 * Millisecond) true 12345678901 =
    [AlignmentTimer 7654321099; Ticker (10 * Second)] /\
  tickerStart (10 * Second) (500 * Millisecond) 12345678901 = 20 * Second.
Proof.
  destruct (initTraceCache_alignment (10 * Second) (500 * Millisecond) 12345678901)
    as (_ & Haligned & _).
  - unfold Go.maxInt64, Second. lia.
  - unfold Millisecond. lia.
  - destruct Haligned as (Hloop & _ & Hstart & _).
    + vm_compute. reflexivity.
    + split; [exact Hloop | exact Hstart].
Defined.

(** Whatever the two constants, the loop started on a boundary (now = 0, or
    any multiple of the interval) has no alignment delay. *)
Lemma initTraceCache_not_always_aligned :
  ~ exists interval maxOffset : Duration,
      0 < interval /\ 0 <= maxOffset /\
      forall now : Z,
        hasAlignmentDelay (initTraceCache interval maxOffset true now) = true.
Proof.
  intros (interval & maxOffset & Hi & Hm & H). specialize (H 0).
  unfold initTraceCache, traceLoop, newTraceTimers, tickerOffset in H.
  rewrite Z.rem_0_l in H by lia. rewrite decide_False in H by lia.
  discriminate H.
Qed.

Example initTraceCache_on_boundary :
  initTraceCache (10 * Second) (500 * Millisecond) true (20 * Second) =
  [Ticker (10 * Second)].
Proof. reflexivity. Qed.

End IntervalClaims.


(** * The rest of the code *)

(** ** Routing helpers: package [routingalgorithms] *)

Module routingalgorithms.

Definition podMetricPort : string := "8000".

(** The two errors of the package: [fmt.Errorf("no pods to forward request")]
    and [fmt.Errorf("no ready pods available for fallback")]. *)
Inductive error :=
| NoPodsToForwardRequest
| NoReadyPodsAvailable.

(** [getPodAddress]: [fmt.Sprintf("%v:%v", podIP, podMetricPort)]. *)
Definition getPodAddress (podIP : string) : string * option error :=
  if decide (podIP = "") then ("", Some NoPodsToForwardRequest)
  else (podIP +:+ ":" +:+ podMetricPort, None).

Definition indexOutOfRange : string := "index out of range".

Section SelectRandomPod.

(** [utils.FilterReadyPods] is not among the sources. *)
Variable FilterReadyPods : gmap string corev1.Pod -> list corev1.Pod.

(** [selectRandomPod]: [randomFn] is given the number of ready pods; an
    index outside of the slice panics. *)
Definition selectRandomPod (pods : gmap string corev1.Pod) (randomFn : Z -> Z)
    : Go.outcome (string * option error) :=
  let readyPods := FilterReadyPods pods in
  if decide (length readyPods = 0%nat) then
    Go.Returned ("", Some NoReadyPodsAvailable)
  else
    let i := randomFn (Z.of_nat (length readyPods)) in
    if decide (0 <= i) then
      match readyPods !! Z.to_nat i with
      | Some randomPod => Go.Returned (corev1.PodIP randomPod, None)
      | None => Go.Panicked indexOutOfRange
      end
    else Go.Panicked indexOutOfRange.

End SelectRandomPod.

End routingalgorithms.

Section RoutingFacts.
Import routingalgorithms.

Lemma string_length_app (s1 s2 : string) :
  String.length (s1 +:+ s2) = (String.length s1 + String.length s2)%nat.
Proof. induction s1 as [|a s1 IH]; simpl; [done | by rewrite IH]. Qed.

Lemma string_app_inv_tail (s1 s2 t : string) : s1 +:+ t = s2 +:+ t -> s1 = s2.
Proof.
  revert s2. induction s1 as [|a s1 IH]; intros [|b s2] H; simpl in H.
  - done.
  - apply (f_equal String.length) in H. simpl in H.
    rewrite !string_length_app in H. simpl in H. lia.
  - apply (f_equal String.length) in H. simpl in H.
    rewrite !string_length_app in H. simpl in H. lia.
  - injection H as -> H. f_equal. by apply IH.
Qed.

(** X1: getPodAddress fails, with an empty address, exactly for the empty
    pod IP.  For every other IP it returns the IP followed by ":8000" and no
    error: the address is never empty, it is five characters longer than the
    IP, and two IPs with the same address are the same. *)
Theorem getPodAddress_address (podIP : string) :
  (podIP = "" <-> (getPodAddress podIP).2 = Some NoPodsToForwardRequest) /\
  (podIP = "" -> getPodAddress podIP = ("", Some NoPodsToForwardRequest)) /\
  (podIP <> "" ->
   getPodAddress podIP = (podIP +:+ ":8000", None) /\
   (getPodAddress podIP).1 <> "" /\
   String.length (getPodAddress podIP).1 = (String.length podIP + 5)%nat) /\
  (forall other, (getPodAddress other).2 = None ->
     (getPodAddress podIP).2 = None ->
     (getPodAddress other).1 = (getPodAddress podIP).1 -> other = podIP).
Proof.
  unfold getPodAddress, podMetricPort. split_and!.
  - split; [by intros -> | by case_decide].
  - by intros ->.
  - intros Hne. rewrite decide_False by done. split_and!; [done| |].
    + simpl. by destruct podIP.
    + simpl. by rewrite string_length_app.
  - intros other. do 2 case_decide; try done. simpl. intros _ _.
    apply string_app_inv_tail.
Qed.

(** X2: selectRandomPod returns the error, with an empty IP, exactly when no
    pod is ready.  An IP it returns without error is the IP of one of the
    ready pods, the one at the index [randomFn] gave; it panics exactly when
    there are ready pods and the index is outside of them. *)
Theorem selectRandomPod_ready_pod
    (FilterReadyPods : gmap string corev1.Pod -> list corev1.Pod)
    (pods : gmap string corev1.Pod) (randomFn : Z -> Z) :
  let readyPods := FilterReadyPods pods in
  let n := Z.of_nat (length readyPods) in
  let r := selectRandomPod FilterReadyPods pods randomFn in
  (readyPods = [] <-> r = Go.Returned ("", Some NoReadyPodsAvailable)) /\
  (forall ip e, r = Go.Returned (ip, Some e) -> readyPods = []) /\
  (forall ip, r = Go.Returned (ip, None) ->
     0 <= randomFn n < n /\
     exists pod, readyPods !! Z.to_nat (randomFn n) = Some pod /\
                 pod ∈ readyPods /\ corev1.PodIP pod = ip) /\
  (0 < n -> 0 <= randomFn n < n -> exists ip, r = Go.Returned (ip, None)) /\
  ((exists msg, r = Go.Panicked msg) <-> 0 < n /\ ~ 0 <= randomFn n < n).
Proof.
  intros readyPods n r. subst r. unfold selectRandomPod.
  change (FilterReadyPods pods) with readyPods.
  change (Z.of_nat (length readyPods)) with n.
  assert (n = Z.of_nat (length readyPods)) as Hn by done.
  clearbody n. clearbody readyPods.
  destruct (decide (length readyPods = 0%nat)) as [Hlen|Hlen].
  { assert (readyPods = []) as Hnil by (by destruct readyPods).
    refine (conj _ (conj _ (conj _ (conj _ _)))); try done.
    - intros ? _. lia.
    - split; [by intros [? ?] | lia]. }
  assert (readyPods <> []) as Hne by (by intros ->).
  assert (0 < n) as Hpos by lia.
  destruct (decide (0 <= randomFn n)) as [Hi|Hi].
  - destruct (readyPods !! Z.to_nat (randomFn n)) as [pod|] eqn:Hpod.
    + pose proof (lookup_lt_Some _ _ _ Hpod) as Hlt.
      refine (conj _ (conj _ (conj _ (conj _ _)))); try done.
      * intros ip [= <-]. split; [lia|]. exists pod.
        split_and!; [done | by eapply list_elem_of_lookup_2 | done].
      * intros _ _. by eexists.
      * split; [by intros [? ?]|]. intros [_ Hout]. destruct Hout. lia.
    + apply lookup_ge_None in Hpod.
      refine (conj _ (conj _ (conj _ (conj _ _)))); try done.
      * intros _ Hin. lia.
      * split; [|by eexists]. intros _. split; [done | lia].
  - refine (conj _ (conj _ (conj _ (conj _ _)))); try done.
    + intros _ Hin. lia.
    + split; [|by eexists]. intros _. split; [done | lia].
Qed.

End RoutingFacts.

(** ** More on the metric clients *)

Section MoreClientFacts.
Import time metrics.

Lemma GetMetricsFromPods_loop_values (c : PodMetricClient) (pods : list corev1.Pod)
    (metricName : string) (metricPort : Z) (acc values : list float) :
  GetMetricsFromPods_loop c pods metricName metricPort acc = (Some values, None) <->
  exists vs, values = acc ++ vs /\
             Forall2 (fun pod v => fetcher c pod metricPort metricName = inl v) pods vs.
Proof.
  revert acc. induction pods as [|pod pods IH]; intros acc; simpl.
  - split.
    + intros [= <-]. exists []. by rewrite app_nil_r.
    + intros (vs & -> & Hvs). apply Forall2_nil_inv_l in Hvs as ->.
      by rewrite app_nil_r.
  - destruct (fetcher c pod metricPort metricName) as [v|err] eqn:Hfetch.
    + rewrite IH. split.
      * intros (vs & -> & Hvs). exists (v :: vs). rewrite <- app_assoc.
        split; [done|]. by constructor.
      * intros (vs & -> & Hvs). apply Forall2_cons_inv_l in Hvs
          as (v' & vs' & Hv' & Hvs' & ->).
        rewrite Hfetch in Hv'. injection Hv' as <-.
        exists vs'. by rewrite <- app_assoc.
    + split; [done|]. intros (vs & _ & Hvs).
      apply Forall2_cons_inv_l in Hvs as (v' & vs' & Hv' & _).
      rewrite Hfetch in Hv'. done.
Qed.

Lemma GetMetricsFromPods_loop_error (c : PodMetricClient) (pods : list corev1.Pod)
    (metricName : string) (metricPort : Z) (acc : list float) :
  (exists values, GetMetricsFromPods_loop c pods metricName metricPort acc
                  = (Some values, None)) \/
  (exists before pod after err,
     pods = before ++ pod :: after /\
     Forall (fun p => exists v, fetcher c p metricPort metricName = inl v) before /\
     fetcher c pod metricPort metricName = inr err /\
     GetMetricsFromPods_loop c pods metricName metricPort acc = (None, Some err)).
Proof.
  revert acc. induction pods as [|pod pods IH]; intros acc; simpl.
  { left. by eexists. }
  destruct (fetcher c pod metricPort metricName) as [v|err] eqn:Hfetch.
  - destruct (IH (acc ++ [v])) as [[values Hv]|(before & p & after & e & -> & Hb & Hp & He)].
    + left. by eexists.
    + right. exists (pod :: before), p, after, e. split_and!; try done.
      constructor; [by eexists | done].
  - right. exists [], pod, pods, err. split_and!; try done.
Qed.

(** X3: GetMetricsFromPods returns the metrics exactly when the fetch of every
    pod succeeds, and then one value per pod, in the order of the pods, with
    a nil error; otherwise it returns a nil slice and the error of the first
    pod whose fetch fails.  It never returns both a slice and an error, nor
    neither; with no pod it returns the empty slice. *)
Theorem GetMetricsFromPods_all_or_first_error (c : PodMetricClient)
    (pods : list corev1.Pod) (metricName : string) (metricPort : Z) :
  let r := GetMetricsFromPods c pods metricName metricPort in
  (forall values,
     r = (Some values, None) <->
     Forall2 (fun pod v => fetcher c pod metricPort metricName = inl v) pods values) /\
  (forall values, r = (Some values, None) -> length values = length pods) /\
  ((exists values, r = (Some values, None)) \/
   (exists before pod after err,
      pods = before ++ pod :: after /\
      Forall (fun p => exists v, fetcher c p metricPort metricName = inl v) before /\
      fetcher c pod metricPort metricName = inr err /\
      r = (None, Some err))) /\
  (pods = [] -> r = (Some [], None)).
Proof.
  intros r. subst r. unfold GetMetricsFromPods.
  assert (forall values,
            GetMetricsFromPods_loop c pods metricName metricPort [] = (Some values, None) <->
            Forall2 (fun pod v => fetcher c pod metricPort metricName = inl v) pods values)
    as Hvalues.
  { intros values. rewrite GetMetricsFromPods_loop_values. simpl. split.
    - by intros (vs & -> & Hvs).
    - intros Hvs. by exists values. }
  refine (conj Hvalues (conj _ (conj _ _))).
  - intros values Hr. apply Hvalues in Hr. symmetry. by eapply Forall2_length.
  - apply GetMetricsFromPods_loop_error.
  - by intros ->.
Qed.

Section AnyWindow.
Context {W : TimeWindowImpl}.

(** X4: UpdateMetricIntoWindow of the dual-window client touches the two
    windows of its key only: the durations, the granularity and the windows
    of every other key stay.  A window the key already has is recorded into,
    not replaced: after two updates of a key the window is the one of the
    first update with the second sample recorded into it. *)
Theorem KPA_UpdateMetricIntoWindow_keeps_windows (c : KPAMetricsClient W)
    (key : NamespaceNameMetric) (now : Time) (v : float) :
  let c' := (KPA_UpdateMetricIntoWindow c key now v).1 in
  (stableDuration c' = stableDuration c /\ panicDuration c' = panicDuration c /\
   kpaGranularity c' = kpaGranularity c /\
   kpaPodMetricClient c' = kpaPodMetricClient c) /\
  (forall key', key' <> key ->
     panicWindowDict c' !! key' = panicWindowDict c !! key' /\
     stableWindowDict c' !! key' = stableWindowDict c !! key') /\
  (forall panicWindow, panicWindowDict c !! key = Some panicWindow ->
     panicWindowDict c' !! key = Some (Record panicWindow now v)) /\
  (forall stableWindow, stableWindowDict c !! key = Some stableWindow ->
     stableWindowDict c' !! key = Some (Record stableWindow now v)) /\
  (forall now2 v2 panicWindow stableWindow,
     panicWindowDict c' !! key = Some panicWindow ->
     stableWindowDict c' !! key = Some stableWindow ->
     let c'' := (KPA_UpdateMetricIntoWindow c' key now2 v2).1 in
     panicWindowDict c'' !! key = Some (Record panicWindow now2 v2) /\
     stableWindowDict c'' !! key = Some (Record stableWindow now2 v2) /\
     dom (panicWindowDict c'') = dom (panicWindowDict c') /\
     dom (stableWindowDict c'') = dom (stableWindowDict c')).
Proof.
  intros c'. subst c'. unfold KPA_UpdateMetricIntoWindow.
  cbn [fst panicWindowDict stableWindowDict stableDuration panicDuration
       kpaGranularity kpaPodMetricClient].
  split_and!; try done.
  - intros key' Hne. by rewrite !updateWindow_lookup_ne.
  - intros w Hw. by rewrite updateWindow_lookup, Hw.
  - intros w Hw. by rewrite updateWindow_lookup, Hw.
  - intros now2 v2 pw sw Hpw Hsw. cbv zeta.
    rewrite !(updateWindow_lookup _ _ now2), Hpw, Hsw. split_and!; try done.
    + unfold updateWindow at 1. by apply dom_insert_lookup_L.
    + unfold updateWindow at 1. by apply dom_insert_lookup_L.
Qed.


(** X6: GetMetricValue of the single-window client is all-or-nothing: the
    error of a missing window for a key that was never updated, the error of
    Avg when the window has no average, each with the value -1, and the
    average with a nil error otherwise.  After an update of a key its window
    exists, so the read of that key does not fail with the missing-window
    error; the windows of the other keys are the same as before. *)
Theorem GetMetricValue_all_or_nothing (c : APAMetricsClient W)
    (key : NamespaceNameMetric) (now : Time) :
  (windowDict c !! key = None ->
   GetMetricValue c key now = ((-1)%float, Some (NotFound "metrics %s not found" key))) /\
  (forall window, windowDict c !! key = Some window ->
     GetMetricValue c key now =
     match Avg window with
     | Ok metricValue => (metricValue, None)
     | Err err => ((-1)%float, Some (WindowError err))
     end) /\
  (forall value err, GetMetricValue c key now = (value, Some err) -> value = (-1)%float) /\
  (forall t v now',
     let c' := (APA_UpdateMetricIntoWindow c key t v).1 in
     windowDict c' !! key =
       Some (Record (default (NewTimeWindow (apaDuration c) (apaGranularity c))
                             (windowDict c !! key)) t v) /\
     (forall format key', (GetMetricValue c' key now').2 <> Some (NotFound format key')) /\
     (forall key', key' <> key ->
        windowDict c' !! key' = windowDict c !! key' /\
        GetMetricValue c' key' now' = GetMetricValue c key' now')).
Proof.
  unfold GetMetricValue. split_and!.
  - by intros ->.
  - by intros window ->.
  - intros value err. destruct (windowDict c !! key) as [w|]; [|by intros [= <- _]].
    destruct (Avg w); [done | by intros [= <- _]].
  - intros t v now'. cbv zeta. unfold APA_UpdateMetricIntoWindow.
    cbn [fst windowDict]. rewrite updateWindow_lookup. split_and!; try done.
    + intros format key'. by destruct (Avg _).
    + intros key' Hne. by rewrite updateWindow_lookup_ne.
Qed.

(** The same updates fed to a new dual-window and to a new single-window
    client. *)
Definition feedKPA (fetcher : MetricFetcher)
    (updates : list (NamespaceNameMetric * Time * float)) : KPAMetricsClient W :=
  foldl (fun c u => (KPA_UpdateMetricIntoWindow c u.1.1 u.1.2 u.2).1)
        (NewKPAMetricsClient fetcher) updates.

Definition feedAPA (fetcher : MetricFetcher)
    (updates : list (NamespaceNameMetric * Time * float)) : APAMetricsClient W :=
  foldl (fun c u => (APA_UpdateMetricIntoWindow c u.1.1 u.1.2 u.2).1)
        (NewAPAMetricsClient fetcher) updates.

(** X7: a new single-window client and a new dual-window client that are fed
    the same updates hold the same windows, the single window of a key being
    the stable window of that key: whenever the dual-window read succeeds,
    the single-window read of the key succeeds with the stable average. *)
Theorem APA_window_is_KPA_stable_window (fetcher fetcher' : MetricFetcher)
    (updates : list (NamespaceNameMetric * Time * float)) :
  windowDict (feedAPA fetcher updates) = stableWindowDict (feedKPA fetcher' updates) /\
  (forall key now stableValue panicValue,
     StableAndPanicMetrics (feedKPA fetcher' updates) key now
       = (stableValue, panicValue, None) ->
     GetMetricValue (feedAPA fetcher updates) key now = (stableValue, None)).
Proof.
  assert (windowDict (feedAPA fetcher updates)
          = stableWindowDict (feedKPA fetcher' updates) /\
          apaDuration (feedAPA fetcher updates)
          = stableDuration (feedKPA fetcher' updates) /\
          apaGranularity (feedAPA fetcher updates)
          = kpaGranularity (feedKPA fetcher' updates)) as (Hw & _).
  { unfold feedAPA, feedKPA.
    induction updates as [|u updates IH] using rev_ind; [done|].
    rewrite !foldl_snoc. destruct IH as (Hw & Hd & Hg).
    set (a := foldl _ (NewAPAMetricsClient fetcher) updates) in *.
    set (k := foldl _ (NewKPAMetricsClient fetcher') updates) in *.
    clearbody a k.
    unfold APA_UpdateMetricIntoWindow, KPA_UpdateMetricIntoWindow.
    cbn [fst windowDict stableWindowDict apaDuration stableDuration apaGranularity
         kpaGranularity].
    by rewrite Hw, Hd, Hg. }
  split; [done|].
  intros key now sv pv. unfold StableAndPanicMetrics, GetMetricValue. rewrite Hw.
  destruct (panicWindowDict _ !! key) as [pw|]; [|done].
  destruct (Avg pw) as [pv'|]; [|done].
  destruct (stableWindowDict _ !! key) as [sw|]; [|done].
  destruct (Avg sw) as [sv'|]; [|done]. by intros [= <- _].
Qed.

End AnyWindow.


End MoreClientFacts.

(** ** More on the store refresh *)

Section RefreshEffect.
Import cache.
Context {P : Package}.
Variable ParseMetricsURL : string -> gmap string MetricFamily * option string.

(** What the refresh writes: a value of the kind of the family under a name
    of the list of the family. *)
Definition written (metricName : string) (value : MetricValue) : Prop :=
  (metricName ∈ counterGaugeMetricNames /\ exists x, value = SimpleMetricValue x) \/
  (metricName ∈ histogramMetricNames /\ exists h, value = HistogramValue h) \/
  (metricName ∈ labelQueryMetricNames /\ exists s, value = LabelValueMetricValue s) \/
  (metricName ∈ prometheusMetricNames /\ exists r, value = PrometheusMetricValue r).

(** A relation between the store before and after that every step of the
    refresh keeps, for the pods [okPod] holds of. *)
Variable K : relation Store.
Variable okPod : string -> Prop.
Hypothesis K_refl : forall c, K c c.
Hypothesis K_trans : forall c1 c2 c3, K c1 c2 -> K c2 c3 -> K c1 c3.
Hypothesis K_log : forall c V message args, K c (emit c (Log V message args)).
Hypothesis K_scrape : forall c url, K c (emit c (Scrape url)).
Hypothesis K_query : forall c query,
  is_Some (prometheusApi c) -> K c (emit c (Query query)).
Hypothesis K_ensure : forall c podName, okPod podName -> K c (ensureRows podName c).
Hypothesis K_record :
  forall c podName modelName metricName metric value c' err,
    okPod podName -> written metricName value ->
    Metrics !! metricName = Some metric ->
    updatePodRecordLocked c podName modelName metricName (Scope metric) value
      = Go.Returned (c', err) ->
    K c c'.

Collection effect := K_refl K_trans K_log K_scrape K_query K_ensure K_record.

Lemma forEach_effect {A} (l : list A) (body : A -> Store -> Go.outcome Store) c c' :
  (forall x c c', x ∈ l -> body x c = Go.Returned c' -> K c c') ->
  forEach l body c = Go.Returned c' -> K c c'.
Proof using effect.
  revert c. induction l as [|x l IH]; intros c Hbody; simpl.
  { intros [= <-]. apply K_refl. }
  destruct (body x c) as [c1|msg] eqn:Hx; simpl; [|done].
  intros Hrest. eapply K_trans.
  - eapply Hbody; [by left | done].
  - apply IH; [|done]. intros y c2 c3 Hy. apply Hbody. by right.
Qed.

Lemma recordSample_effect pod modelName metricName metric value shown c c' :
  okPod (corev1.Name pod) -> written metricName value ->
  Metrics !! metricName = Some metric ->
  recordSample pod modelName metricName (Scope metric) value shown c = Go.Returned c' ->
  K c c'.
Proof using effect.
  intros Hpod Hw Hm. unfold recordSample.
  destruct (updatePodRecordLocked _ _ _ _ _ _) as [[c1 err]|msg] eqn:Hrec; simpl; [|done].
  pose proof (K_record _ _ _ _ _ _ _ _ Hpod Hw Hm Hrec) as H1.
  destruct err as [e|]; intros [= <-]; (eapply K_trans; [exact H1|]); apply K_log.
Qed.

Lemma updateSimpleMetricFromRawMetricsLocked_effect pod allMetrics c c' :
  okPod (corev1.Name pod) ->
  updateSimpleMetricFromRawMetricsLocked pod allMetrics c = Go.Returned c' -> K c c'.
Proof using effect.
  intros Hpod. apply forEach_effect. intros metricName c0 c1 Hname.
  destruct (Metrics !! metricName) as [metric|] eqn:Hm; [|intros [= <-]; apply K_log].
  destruct (allMetrics !! _) as [metricFamily|]; [|intros [= <-]; apply K_log].
  apply forEach_effect. intros familyMetric c2 c3 _.
  destruct (GetCounterGaugeValue _ _) as [metricValue|err];
    [|intros [= <-]; apply K_log].
  apply recordSample_effect; [done| |done]. left. split; [done | by eexists].
Qed.

Lemma updateHistogramMetricFromRawMetricsLocked_effect pod allMetrics c c' :
  okPod (corev1.Name pod) ->
  updateHistogramMetricFromRawMetricsLocked pod allMetrics c = Go.Returned c' -> K c c'.
Proof using effect.
  intros Hpod. apply forEach_effect. intros metricName c0 c1 Hname.
  destruct (Metrics !! metricName) as [metric|] eqn:Hm; [|intros [= <-]; apply K_log].
  destruct (allMetrics !! _) as [metricFamily|]; [|intros [= <-]; apply K_log].
  apply forEach_effect. intros familyMetric c2 c3 _.
  destruct (GetHistogramValue _) as [metricValue|err];
    [|intros [= <-]; apply K_log].
  apply recordSample_effect; [done| |done]. right. left. split; [done | by eexists].
Qed.

Lemma updateQueryLabelMetricFromRawMetricsLocked_effect pod allMetrics c c' :
  okPod (corev1.Name pod) ->
  updateQueryLabelMetricFromRawMetricsLocked pod allMetrics c = Go.Returned c' -> K c c'.
Proof using effect.
  intros Hpod. apply forEach_effect. intros metricName c0 c1 Hname.
  destruct (Metrics !! metricName) as [metric|] eqn:Hm; [|intros [= <-]; apply K_log].
  cbv zeta. destruct (allMetrics !! _) as [metricFamily|]; [|intros [= <-]; apply K_log].
  apply forEach_effect. intros familyMetric c2 c3 _.
  apply recordSample_effect; [done| |done].
  right. right. left. split; [done | by eexists].
Qed.

Lemma queryUpdatePromQLMetricsLocked_effect metric queryLabels podName modelName
    metricName c r :
  okPod podName -> metricName ∈ prometheusMetricNames ->
  Metrics !! metricName = Some metric ->
  queryUpdatePromQLMetricsLocked metric queryLabels podName modelName metricName c
    = Go.Returned r ->
  K c (logQueryError r).
Proof using effect.
  intros Hpod Hname Hm. unfold queryUpdatePromQLMetricsLocked.
  destruct (prometheusApi c) as [api|] eqn:Hapi; [|done].
  assert (K c (emit c (Query (BuildQuery (PromQL metric) queryLabels)))) as H1
    by (apply K_query; by rewrite Hapi).
  destruct (api _) as [[result warnings]|err].
  2: { intros [= <-]. unfold logQueryError. simpl.
       eapply K_trans; [exact H1|]. apply K_log. }
  set (c2 := if decide _ then _ else _).
  assert (K c c2) as H2.
  { unfold c2. case_decide; [|done]. eapply K_trans; [exact H1|]. apply K_log. }
  destruct (updatePodRecordLocked _ _ _ _ _ _) as [[c3 err]|msg] eqn:Hrec; simpl; [|done].
  assert (K c2 c3) as H3.
  { eapply K_record; [exact Hpod| |exact Hm|exact Hrec].
    right. right. right. split; [done | by eexists]. }
  destruct err as [e|]; intros [= <-]; unfold logQueryError; simpl;
    (eapply K_trans; [exact H2|]); (eapply K_trans; [exact H3|]);
    apply K_log.
Qed.

Lemma updateMetricFromPromQLLocked_effect pod c c' :
  okPod (corev1.Name pod) ->
  updateMetricFromPromQLLocked pod c = Go.Returned c' -> K c c'.
Proof using effect.
  intros Hpod. apply forEach_effect. intros metricName c0 c1 Hname. cbv zeta.
  destruct (Metrics !! metricName) as [metric|] eqn:Hm; [|intros [= <-]; apply K_log].
  destruct (Scope metric) as [| |other] eqn:Hscope.
  - destruct (queryUpdatePromQLMetricsLocked _ _ _ _ _ _) as [r|msg] eqn:Hq;
      simpl; [|done].
    intros [= <-]. by eapply queryUpdatePromQLMetricsLocked_effect.
  - destruct (PodToModelMapping c0 !! corev1.Name pod) as [modelNames|];
      [|intros [= <-]; apply K_log].
    apply forEach_effect. intros modelName c2 c3 _. cbv zeta.
    destruct (queryUpdatePromQLMetricsLocked _ _ _ _ _ _) as [r|msg] eqn:Hq;
      simpl; [|done].
    intros [= <-]. by eapply queryUpdatePromQLMetricsLocked_effect.
  - intros [= <-]. apply K_log.
Qed.

Lemma updateOnePod_effect pod c c' :
  okPod (corev1.Name pod) ->
  updateOnePod ParseMetricsURL pod c = Go.Returned c' -> K c c'.
Proof using effect.
  intros Hpod. rewrite updateOnePod_unfold.
  assert (K c (scraped ParseMetricsURL pod c).2) as H0.
  { unfold scraped. destruct (ParseMetricsURL (metricsURL pod)) as [allMetrics [err|]];
      simpl.
    - eapply K_trans; [by apply K_ensure|]. eapply K_trans; [apply K_scrape|].
      apply K_log.
    - eapply K_trans; [by apply K_ensure|]. apply K_scrape. }
  destruct (updateSimpleMetricFromRawMetricsLocked _ _ _) as [c1|] eqn:H1; simpl; [|done].
  destruct (updateHistogramMetricFromRawMetricsLocked _ _ _) as [c2|] eqn:H2;
    simpl; [|done].
  destruct (updateQueryLabelMetricFromRawMetricsLocked _ _ _) as [c3|] eqn:H3;
    simpl; [|done].
  apply updateSimpleMetricFromRawMetricsLocked_effect in H1; [|done].
  apply updateHistogramMetricFromRawMetricsLocked_effect in H2; [|done].
  apply updateQueryLabelMetricFromRawMetricsLocked_effect in H3; [|done].
  assert (K c c3) as H03 by eauto.
  destruct (prometheusApi c3) as [api|].
  - intros H4. apply updateMetricFromPromQLLocked_effect in H4; [|done]. eauto.
  - intros [= <-]. eapply K_trans; [exact H03|]. apply K_log.
Qed.

Lemma forEach_updateOnePod_effect pods c c' :
  Forall (fun pod => okPod (corev1.Name pod)) pods ->
  forEach pods (updateOnePod ParseMetricsURL) c = Go.Returned c' -> K c c'.
Proof using effect.
  intros Hpods. apply forEach_effect. intros pod c0 c1 Hpod.
  apply updateOnePod_effect. by eapply Forall_forall in Hpods.
Qed.

End RefreshEffect.

Section RefreshInvariants.
Import cache.
Context {P : Package}.
Variable ParseMetricsURL : string -> gmap string MetricFamily * option string.

(** The value [c.PodMetrics[podName][metricName]] and the value
    [c.PodModelMetrics[podName][modelName][metricName]], when there is one. *)
Definition podEntry (c : Store) (podName metricName : string) : option MetricValue :=
  PodMetrics c !! podName ≫= (.!! metricName).

Definition modelEntry (c : Store) (podName modelName metricName : string)
    : option MetricValue :=
  (PodModelMetrics c !! podName ≫= (.!! modelName)) ≫= (.!! metricName).

(** The metric is written under a name and with a kind of value the refresh
    uses, and the table of the metrics gives it the scope. *)
Definition declared (scope : MetricScope) (metricName : string) (value : MetricValue)
    : Prop :=
  written metricName value /\
  exists metric, Metrics !! metricName = Some metric /\ Scope metric = scope.

Lemma emptyRow_lookup {A} (o : option (gmap string A)) (k : string) :
  size (default ∅ o) = 0%nat -> o ≫= (.!! k) = None.
Proof.
  destruct o as [row|]; simpl; [|done].
  intros H. apply map_size_empty_inv in H. by subst.
Qed.

Lemma podEntry_row c podName metricName :
  is_Some (podEntry c podName metricName) -> is_Some (PodMetrics c !! podName).
Proof. unfold podEntry. destruct (PodMetrics c !! podName); [done | by intros [? [=]]]. Qed.

Lemma modelEntry_row c podName modelName metricName :
  is_Some (modelEntry c podName modelName metricName) ->
  is_Some (PodModelMetrics c !! podName).
Proof.
  unfold modelEntry. destruct (PodModelMetrics c !! podName); [done | by intros [? [=]]].
Qed.

(** Making the rows of a pod changes no entry. *)
Lemma ensureRows_entries name c :
  (forall podName metricName,
     podEntry (ensureRows name c) podName metricName = podEntry c podName metricName) /\
  (forall podName modelName metricName,
     modelEntry (ensureRows name c) podName modelName metricName =
     modelEntry c podName modelName metricName).
Proof.
  unfold ensureRows, podEntry, modelEntry.
  split; intros podName; intros; repeat case_decide; simpl in *; try done;
    (destruct (decide (podName = name)) as [->|Hne];
     [rewrite ?lookup_insert_eq; simpl; symmetry;
      first [ by apply emptyRow_lookup
            | by (match goal with
                  | H : size (default ∅ ?o) = 0%nat |- _ =>
                      destruct o as [models|]; simpl in *; [|done];
                      apply map_size_empty_inv in H; subst
                  end) ]
     | by rewrite ?lookup_insert_ne by done ]).
Qed.

Lemma updatePodRecordLocked_failed c podName modelName metricName scope value c' e :
  updatePodRecordLocked c podName modelName metricName scope value
    = Go.Returned (c', Some e) ->
  c' = c.
Proof.
  unfold updatePodRecordLocked. destruct scope.
  - case_decide; [by intros [= <- _]|]. by destruct (PodMetrics c !! podName).
  - case_decide; [by intros [= <- _]|].
    destruct (PodModelMetrics c !! podName) as [models|]; [|done].
    by destruct (_ !! modelName).
  - by intros [= <- _].
Qed.

(** What a write that returns no error has done. *)
Definition recorded (c : Store) (podName modelName metricName : string)
    (scope : MetricScope) (value : MetricValue) (c' : Store) : Prop :=
  prometheusApi c' = prometheusApi c /\
  Pods c' = Pods c /\
  PodToModelMapping c' = PodToModelMapping c /\
  events c' = events c /\
  (forall name, name <> podName ->
     PodMetrics c' !! name = PodMetrics c !! name /\
     PodModelMetrics c' !! name = PodModelMetrics c !! name) /\
  match scope with
  | PodMetricScope =>
      modelName = "" /\
      is_Some (PodMetrics c !! podName) /\
      podEntry c' podName metricName = Some value /\
      (forall other, other <> metricName ->
         podEntry c' podName other = podEntry c podName other) /\
      PodModelMetrics c' = PodModelMetrics c
  | PodModelMetricScope =>
      modelName <> "" /\
      is_Some (PodModelMetrics c !! podName) /\
      modelEntry c' podName modelName metricName = Some value /\
      (forall model other, (model, other) <> (modelName, metricName) ->
         modelEntry c' podName model other = modelEntry c podName model other) /\
      PodMetrics c' = PodMetrics c
  | OtherScope _ => False
  end.

Lemma updatePodRecordLocked_recorded c podName modelName metricName scope value c' :
  updatePodRecordLocked c podName modelName metricName scope value
    = Go.Returned (c', None) ->
  recorded c podName modelName metricName scope value c'.
Proof.
  unfold updatePodRecordLocked, recorded. destruct scope as [| |other].
  - case_decide as Hm; [done|].
    destruct (PodMetrics c !! podName) as [row|] eqn:Hrow; [|done].
    intros [= <-]. unfold podEntry. simpl. rewrite Hrow, lookup_insert_eq. simpl.
    rewrite lookup_insert_eq. split_and!; try done.
    + intros name Hne. by rewrite lookup_insert_ne.
    + intros other Hne. by rewrite lookup_insert_ne.
  - case_decide as Hm; [done|].
    destruct (PodModelMetrics c !! podName) as [models|] eqn:Hmodels; [|done].
    cbv zeta.
    destruct ((if decide (size (default ∅ (models !! modelName)) = 0%nat)
               then <[modelName:=∅]> models else models) !! modelName)
      as [row|] eqn:Hrow; [|done].
    intros [= <-]. unfold modelEntry. simpl. rewrite Hmodels, lookup_insert_eq. simpl.
    rewrite lookup_insert_eq. simpl. rewrite lookup_insert_eq.
    split_and!; try done.
    + intros name Hne. by rewrite lookup_insert_ne.
    + intros model other Hne.
      destruct (decide (model = modelName)) as [->|Hmodel].
      * rewrite lookup_insert_eq. simpl.
        rewrite lookup_insert_ne by congruence.
        case_decide as Hsize.
        -- rewrite lookup_insert_eq in Hrow. injection Hrow as <-.
           symmetry. by apply (emptyRow_lookup (models !! modelName)).
        -- by rewrite Hrow.
      * rewrite lookup_insert_ne by done.
        case_decide; [by rewrite lookup_insert_ne|done].
  - done.
Qed.

(** The effect of a run of steps of the refresh for the pods [S] holds of:
    the client, the pods and the mapping stay; the rows of the other pods
    stay; no row and no entry is removed; an entry is as before or a
    declared metric of one of the pods, in the table of its scope. *)
Definition refreshEffect (S : string -> Prop) (c c' : Store) : Prop :=
  prometheusApi c' = prometheusApi c /\
  Pods c' = Pods c /\
  PodToModelMapping c' = PodToModelMapping c /\
  (forall name, ~ S name ->
     PodMetrics c' !! name = PodMetrics c !! name /\
     PodModelMetrics c' !! name = PodModelMetrics c !! name) /\
  (forall podName, is_Some (PodMetrics c !! podName) ->
     is_Some (PodMetrics c' !! podName)) /\
  (forall podName, is_Some (PodModelMetrics c !! podName) ->
     is_Some (PodModelMetrics c' !! podName)) /\
  (forall podName metricName, is_Some (podEntry c podName metricName) ->
     is_Some (podEntry c' podName metricName)) /\
  (forall podName modelName metricName,
     is_Some (modelEntry c podName modelName metricName) ->
     is_Some (modelEntry c' podName modelName metricName)) /\
  (forall podName metricName value,
     podEntry c' podName metricName = Some value ->
     podEntry c podName metricName = Some value \/
     (S podName /\ declared PodMetricScope metricName value)) /\
  (forall podName modelName metricName value,
     modelEntry c' podName modelName metricName = Some value ->
     modelEntry c podName modelName metricName = Some value \/
     (S podName /\ modelName <> "" /\ declared PodModelMetricScope metricName value)).

Lemma refreshEffect_refl S c : refreshEffect S c c.
Proof. unfold refreshEffect. split_and!; try done; intros; by left. Qed.

Lemma refreshEffect_trans S c1 c2 c3 :
  refreshEffect S c1 c2 -> refreshEffect S c2 c3 -> refreshEffect S c1 c3.
Proof.
  intros (Ha & Hb & Hm & Hf & Hr & Hmr & He & Hme & Hw & Hmw)
         (Ha' & Hb' & Hm' & Hf' & Hr' & Hmr' & He' & Hme' & Hw' & Hmw').
  unfold refreshEffect. split_and!; try congruence; try (intros; by eauto).
  - intros name Hn. destruct (Hf name Hn) as [E1 E2].
    destruct (Hf' name Hn) as [E1' E2']. split; congruence.
  - intros podName metricName value H.
    destruct (Hw' _ _ _ H) as [H2|H2]; [by apply Hw | by right].
  - intros podName modelName metricName value H.
    destruct (Hmw' _ _ _ _ H) as [H2|H2]; [by apply Hmw | by right].
Qed.

Lemma refreshEffect_emit S c e : refreshEffect S c (emit c e).
Proof. unfold refreshEffect. split_and!; try done; intros; by left. Qed.

Lemma refreshEffect_ensureRows (S : string -> Prop) c podName :
  S podName -> refreshEffect S c (ensureRows podName c).
Proof.
  intros HS.
  destruct (ensureRows_frame podName c) as (Ha & Hb & Hm & _ & Hf).
  destruct (ensureRows_entries podName c) as [He Hme].
  destruct (ensureRows_rowsPresent podName c) as [Hr Hmr].
  unfold refreshEffect. split_and!; try done.
  - intros name Hn. apply Hf. by intros ->.
  - intros name Hrow. destruct (decide (name = podName)) as [->|Hne]; [done|].
    by rewrite (proj1 (Hf name Hne)).
  - intros name Hrow. destruct (decide (name = podName)) as [->|Hne]; [done|].
    by rewrite (proj2 (Hf name Hne)).
  - intros name metricName. by rewrite He.
  - intros name modelName metricName. by rewrite Hme.
  - intros name metricName value. rewrite He. by left.
  - intros name modelName metricName value. rewrite Hme. by left.
Qed.

Lemma refreshEffect_record (S : string -> Prop) c podName modelName metricName metric
    value c' err :
  S podName -> written metricName value ->
  Metrics !! metricName = Some metric ->
  updatePodRecordLocked c podName modelName metricName (Scope metric) value
    = Go.Returned (c', err) ->
  refreshEffect S c c'.
Proof.
  intros HS Hw Hm Hrec. destruct err as [e|].
  { apply updatePodRecordLocked_failed in Hrec as ->. apply refreshEffect_refl. }
  apply updatePodRecordLocked_recorded in Hrec.
  destruct Hrec as (Ha & Hb & Hmap & _ & Hf & Hscope).
  assert (forall name, ~ S name -> name <> podName) as Hother
    by (intros name Hn ->; done).
  destruct (Scope metric) as [| |other] eqn:Hsc; [| |done].
  - destruct Hscope as (_ & Hrow & Hnew & Hrest & Hmodels).
    assert (forall name metricName',
              (name, metricName') <> (podName, metricName) ->
              podEntry c' name metricName' = podEntry c name metricName') as Hold.
    { intros name metricName' Hne. destruct (decide (name = podName)) as [->|Hp].
      - apply Hrest. congruence.
      - unfold podEntry. by rewrite (proj1 (Hf name Hp)). }
    unfold refreshEffect. split_and!; try done.
    + intros name Hn. by apply Hf, Hother.
    + intros name Hr. destruct (decide (name = podName)) as [->|Hp].
      * apply (podEntry_row c' podName metricName). by rewrite Hnew.
      * by rewrite (proj1 (Hf name Hp)).
    + intros name. by rewrite Hmodels.
    + intros name metricName' He.
      destruct (decide ((name, metricName') = (podName, metricName))) as [[= -> ->]|Hne].
      * by rewrite Hnew.
      * by rewrite Hold.
    + intros name modelName' metricName'. unfold modelEntry. by rewrite Hmodels.
    + intros name metricName' value' He.
      destruct (decide ((name, metricName') = (podName, metricName))) as [[= -> ->]|Hne].
      * right. rewrite Hnew in He. injection He as <-.
        split; [done|]. split; [done|]. by exists metric.
      * left. by rewrite <- Hold.
    + intros name modelName' metricName' value'. unfold modelEntry.
      rewrite Hmodels. by left.
  - destruct Hscope as (Hmodel & Hrow & Hnew & Hrest & Hpods).
    assert (forall name modelName' metricName',
              (name, modelName', metricName') <> (podName, modelName, metricName) ->
              modelEntry c' name modelName' metricName' =
              modelEntry c name modelName' metricName') as Hold.
    { intros name modelName' metricName' Hne.
      destruct (decide (name = podName)) as [->|Hp].
      - apply Hrest. congruence.
      - unfold modelEntry. by rewrite (proj2 (Hf name Hp)). }
    unfold refreshEffect. split_and!; try done.
    + intros name Hn. by apply Hf, Hother.
    + intros name. by rewrite Hpods.
    + intros name Hr. destruct (decide (name = podName)) as [->|Hp].
      * apply (modelEntry_row c' podName modelName metricName). by rewrite Hnew.
      * by rewrite (proj2 (Hf name Hp)).
    + intros name metricName'. unfold podEntry. by rewrite Hpods.
    + intros name modelName' metricName' He.
      destruct (decide ((name, modelName', metricName') = (podName, modelName, metricName)))
        as [[= -> -> ->]|Hne].
      * by rewrite Hnew.
      * by rewrite Hold.
    + intros name metricName' value'. unfold podEntry. rewrite Hpods. by left.
    + intros name modelName' metricName' value' He.
      destruct (decide ((name, modelName', metricName') = (podName, modelName, metricName)))
        as [[= -> -> ->]|Hne].
      * right. rewrite Hnew in He. injection He as <-.
        split; [done|]. split; [done|]. split; [done|]. by exists metric.
      * left. by rewrite <- Hold.
Qed.

(** The ready pods of a store, by name. *)
Definition readyName (c : Store) (name : string) : Prop :=
  exists pod, pod ∈ FilterReadyPods (Pods c) /\ corev1.Name pod = name.

Lemma forEach_updateOnePod_refreshEffect (S : string -> Prop) pods c c' :
  Forall (fun pod => S (corev1.Name pod)) pods ->
  forEach pods (updateOnePod ParseMetricsURL) c = Go.Returned c' ->
  refreshEffect S c c'.
Proof.
  apply (forEach_updateOnePod_effect ParseMetricsURL (refreshEffect S) S).
  - apply refreshEffect_refl.
  - apply refreshEffect_trans.
  - intros. apply refreshEffect_emit.
  - intros. apply refreshEffect_emit.
  - intros. apply refreshEffect_emit.
  - intros. by apply refreshEffect_ensureRows.
  - intros. by eapply refreshEffect_record.
Qed.

Lemma updatePodMetrics_loop c c' :
  updatePodMetrics ParseMetricsURL c = Go.Returned c' ->
  exists c1,
    forEach (FilterReadyPods (Pods c)) (updateOnePod ParseMetricsURL) (emit c Lock)
      = Go.Returned c1 /\
    c' = emit c1 Unlock.
Proof.
  unfold updatePodMetrics. cbn [Pods emit]. case_decide as Hlen.
  - intros [= <-]. exists (emit c Lock). split; [|done].
    by destruct (FilterReadyPods (Pods c)).
  - destruct (forEach _ _ _) as [c1|msg]; simpl; [|done].
    intros [= <-]. by exists c1.
Qed.

Lemma updatePodMetrics_refreshEffect c c' :
  updatePodMetrics ParseMetricsURL c = Go.Returned c' ->
  refreshEffect (readyName c) c c'.
Proof.
  intros (c1 & Hloop & ->)%updatePodMetrics_loop.
  eapply refreshEffect_trans; [apply (refreshEffect_emit _ c Lock)|].
  eapply refreshEffect_trans; [|apply refreshEffect_emit].
  eapply forEach_updateOnePod_refreshEffect; [|exact Hloop].
  apply Forall_forall. intros pod Hpod. by exists pod.
Qed.

(** After the loop every pod of it has its two rows. *)
Lemma forEach_updateOnePod_rows pods c c' :
  forEach pods (updateOnePod ParseMetricsURL) c = Go.Returned c' ->
  forall pod, pod ∈ pods -> rowsPresent (corev1.Name pod) c'.
Proof.
  revert c. induction pods as [|pod0 pods IH]; intros c; simpl.
  { intros _ pod Hpod. by apply elem_of_nil in Hpod. }
  destruct (updateOnePod_from_scraped ParseMetricsURL pod0 c) as (c1 & Hc1 & Hsteps).
  rewrite Hc1. simpl. intros Hrest pod Hpod.
  apply elem_of_cons in Hpod as [->|Hpod]; [|by eapply IH].
  destruct (scraped_steps ParseMetricsURL pod0 c) as (Hrows & _).
  assert (rowsPresent (corev1.Name pod0) c1) as [H1 H2]
    by (by eapply stepsFor_rowsPresent).
  apply (forEach_updateOnePod_refreshEffect (fun _ => True)) in Hrest;
    [|by apply Forall_forall].
  destruct Hrest as (_ & _ & _ & _ & Hr & Hmr & _).
  split; [by apply Hr | by apply Hmr].
Qed.

End RefreshInvariants.

Section RecordTheorems.
Import cache.
Context {P : Package}.

(** The row of a model is there when it is written into. *)
Lemma modelRow_made {A} (models : gmap string (gmap string A)) (modelName : string) :
  is_Some ((if decide (size (default ∅ (models !! modelName)) = 0%nat)
            then <[modelName := ∅]> models else models) !! modelName).
Proof.
  case_decide as Hsize; [by rewrite lookup_insert_eq|].
  destruct (models !! modelName); [done | by destruct Hsize].
Qed.

Lemma updatePodRecordLocked_panics c podName modelName metricName scope value :
  (exists msg, updatePodRecordLocked c podName modelName metricName scope value
                 = Go.Panicked msg) <->
  (scope = PodMetricScope /\ modelName = "" /\ PodMetrics c !! podName = None) \/
  (scope = PodModelMetricScope /\ modelName <> "" /\
   PodModelMetrics c !! podName = None).
Proof.
  unfold updatePodRecordLocked. destruct scope as [| |other].
  - case_decide as Hm.
    + split; [by intros [? [=]] | intros [(_ & ? & _)|(? & _)]; done].
    + destruct (PodMetrics c !! podName) as [row|].
      * split; [by intros [? [=]] | intros [(_ & _ & ?)|(? & _)]; done].
      * split; [intros _; by left | by eexists].
  - case_decide as Hm.
    + split; [by intros [? [=]] | intros [(? & _)|(_ & ? & _)]; done].
    + destruct (PodModelMetrics c !! podName) as [models|].
      * cbv zeta. destruct (modelRow_made models modelName) as [row ->].
        split; [by intros [? [=]] | intros [(? & _)|(_ & _ & ?)]; done].
      * split; [intros _; by right | by eexists].
  - split; [by intros [? [=]] | intros [(? & _)|(? & _)]; done].
Qed.

End RecordTheorems.

Section RecordOutcome.
Import cache.
Context {P : Package}.

Lemma updatePodRecordLocked_fails c podName modelName metricName scope value :
  (exists c' e, updatePodRecordLocked c podName modelName metricName scope value
                  = Go.Returned (c', Some e)) <->
  (scope = PodMetricScope /\ modelName <> "") \/
  (scope = PodModelMetricScope /\ modelName = "") \/
  (exists other, scope = OtherScope other).
Proof.
  unfold updatePodRecordLocked. destruct scope as [| |other].
  - case_decide as Hm.
    + split; [intros _; by left | by eexists _, _].
    + split; [|intros [(_ & ?)|[(? & _)|(? & ?)]]; done].
      intros (c' & e & H). by destruct (PodMetrics c !! podName).
  - case_decide as Hm.
    + split; [intros _; right; by left | by eexists _, _].
    + split; [|intros [(? & _)|[(_ & ?)|(? & ?)]]; done].
      intros (c' & e & H).
      destruct (PodModelMetrics c !! podName) as [models|]; [|done].
      cbv zeta in H. by destruct (modelRow_made models modelName) as [row Hrow];
        rewrite Hrow in H.
  - split; [intros _; right; right; by eexists | by eexists _, _].
Qed.

(** X8: the outcome of a write of one metric.  It returns an error exactly
    on a scope that does not fit the model name or is not supported, whatever
    the store holds; it panics exactly when the scope fits and the table of
    the scope has no row for the pod; a write that returns no error is read
    back under its pod (and model) and metric name, every other entry, the
    other table, the pods, the mapping, the client and the events are as
    before, and a further write of the same metric returns no error. *)
Theorem updatePodRecordLocked_outcome (c : Store)
    (podName modelName metricName : string) (scope : MetricScope)
    (value : MetricValue) :
  ((exists c' e, updatePodRecordLocked c podName modelName metricName scope value
                   = Go.Returned (c', Some e)) <->
   (scope = PodMetricScope /\ modelName <> "") \/
   (scope = PodModelMetricScope /\ modelName = "") \/
   (exists other, scope = OtherScope other)) /\
  ((exists msg, updatePodRecordLocked c podName modelName metricName scope value
                  = Go.Panicked msg) <->
   (scope = PodMetricScope /\ modelName = "" /\ PodMetrics c !! podName = None) \/
   (scope = PodModelMetricScope /\ modelName <> "" /\
    PodModelMetrics c !! podName = None)) /\
  (forall c',
     updatePodRecordLocked c podName modelName metricName scope value
       = Go.Returned (c', None) ->
     recorded c podName modelName metricName scope value c' /\
     forall value', exists c'',
       updatePodRecordLocked c' podName modelName metricName scope value'
         = Go.Returned (c'', None)).
Proof.
  split_and!.
  - apply updatePodRecordLocked_fails.
  - apply updatePodRecordLocked_panics.
  - intros c' Hrec. pose proof (updatePodRecordLocked_recorded _ _ _ _ _ _ _ Hrec) as H.
    split; [done|]. intros value'.
    destruct (updatePodRecordLocked c' podName modelName metricName scope value')
      as [[c'' [e|]]|msg] eqn:Hagain.
    + assert (exists c0 e0,
                updatePodRecordLocked c podName modelName metricName scope value
                  = Go.Returned (c0, Some e0)) as (c0 & e0 & Hc0).
      { apply updatePodRecordLocked_fails.
        apply (updatePodRecordLocked_fails c' podName modelName metricName scope value').
        by eexists _, _. }
      congruence.
    + by exists c''.
    + exfalso.
      assert (exists msg0,
                updatePodRecordLocked c' podName modelName metricName scope value'
                  = Go.Panicked msg0) as Hp by (by eexists).
      apply updatePodRecordLocked_panics in Hp.
      destruct H as (_ & _ & _ & _ & _ & H).
      destruct Hp as [(-> & _ & Hnone)|(-> & _ & Hnone)].
      * destruct H as (_ & _ & Hnew & _).
        destruct (podEntry_row c' podName metricName) as [row Hrow];
          [by rewrite Hnew | congruence].
      * destruct H as (_ & _ & Hnew & _).
        destruct (modelEntry_row c' podName modelName metricName) as [row Hrow];
          [by rewrite Hnew | congruence].
Qed.

End RecordOutcome.

Section RefreshTheorems.
Import cache.
Context {P : Package}.
Variable ParseMetricsURL : string -> gmap string MetricFamily * option string.

(** X9: a refresh removes nothing.  It returns, and every row of the two
    tables and every entry (pod, metric) and (pod, model, metric) the store
    held before is still there after, with the old or a new value: metrics
    that are no longer reported stay in the store. *)
Theorem updatePodMetrics_never_removes (c : Store) :
  exists c',
    updatePodMetrics ParseMetricsURL c = Go.Returned c' /\
    dom (PodMetrics c) ⊆ dom (PodMetrics c') /\
    dom (PodModelMetrics c) ⊆ dom (PodModelMetrics c') /\
    (forall podName metricName,
       is_Some (podEntry c podName metricName) ->
       is_Some (podEntry c' podName metricName)) /\
    (forall podName modelName metricName,
       is_Some (modelEntry c podName modelName metricName) ->
       is_Some (modelEntry c' podName modelName metricName)).
Proof.
  destruct (updatePodMetrics_trace ParseMetricsURL c) as (c' & body & Hc' & _).
  exists c'. split; [done|].
  destruct (updatePodMetrics_refreshEffect ParseMetricsURL c c' Hc')
    as (_ & _ & _ & _ & Hr & Hmr & He & Hme & _).
  split_and!; try done.
  - intros name. rewrite !elem_of_dom. apply Hr.
  - intros name. rewrite !elem_of_dom. apply Hmr.
Qed.

(** X10: what a refresh writes.  Every entry of the store after the refresh
    is an entry the store held before, with the same value, or belongs to a
    ready pod and to a metric of one of the four lists of names, with a value
    of the kind of its list, in the table the scope of the metric names: a
    metric of PodMetricScope in PodMetrics, a metric of PodModelMetricScope
    in PodModelMetrics under a model name that is not empty. *)
Theorem updatePodMetrics_entries_declared (c : Store) :
  exists c',
    updatePodMetrics ParseMetricsURL c = Go.Returned c' /\
    (forall podName metricName value,
       podEntry c' podName metricName = Some value ->
       podEntry c podName metricName = Some value \/
       (readyName c podName /\ declared PodMetricScope metricName value)) /\
    (forall podName modelName metricName value,
       modelEntry c' podName modelName metricName = Some value ->
       modelEntry c podName modelName metricName = Some value \/
       (readyName c podName /\ modelName <> "" /\
        declared PodModelMetricScope metricName value)).
Proof.
  destruct (updatePodMetrics_trace ParseMetricsURL c) as (c' & body & Hc' & _).
  exists c'. split; [done|].
  destruct (updatePodMetrics_refreshEffect ParseMetricsURL c c' Hc')
    as (_ & _ & _ & _ & _ & _ & _ & _ & Hw & Hmw).
  by split.
Qed.

(** X11: a refresh touches the rows of the ready pods only.  The client,
    the pods and the pod-to-model mapping are as before, the rows of a pod
    that is not ready are as before in both tables, every ready pod has a
    row in both tables after the refresh, and with no ready pod the store
    is as before but for the lock taken and released. *)
Theorem updatePodMetrics_ready_pods_only (c : Store) :
  exists c',
    updatePodMetrics ParseMetricsURL c = Go.Returned c' /\
    prometheusApi c' = prometheusApi c /\
    Pods c' = Pods c /\
    PodToModelMapping c' = PodToModelMapping c /\
    (forall name, ~ readyName c name ->
       PodMetrics c' !! name = PodMetrics c !! name /\
       PodModelMetrics c' !! name = PodModelMetrics c !! name) /\
    (forall pod, pod ∈ FilterReadyPods (Pods c) ->
       is_Some (PodMetrics c' !! corev1.Name pod) /\
       is_Some (PodModelMetrics c' !! corev1.Name pod)) /\
    (FilterReadyPods (Pods c) = [] -> c' = emit (emit c Lock) Unlock).
Proof.
  destruct (updatePodMetrics_trace ParseMetricsURL c) as (c' & body & Hc' & _).
  exists c'. split; [done|].
  destruct (updatePodMetrics_refreshEffect ParseMetricsURL c c' Hc')
    as (Ha & Hb & Hm & Hf & _).
  destruct (updatePodMetrics_loop ParseMetricsURL c c' Hc') as (c1 & Hloop & ->).
  split_and!; try done.
  - intros pod Hpod.
    by destruct (forEach_updateOnePod_rows ParseMetricsURL _ _ _ Hloop pod Hpod).
  - intros Hnone. rewrite Hnone in Hloop. simpl in Hloop. by injection Hloop as <-.
Qed.

(** A run of steps that sends no query when there is no Prometheus client. *)
Definition noQuery (c c' : Store) : Prop :=
  prometheusApi c' = prometheusApi c /\
  (prometheusApi c = None ->
   exists evs, events c' = events c ++ evs /\
               Forall (fun e => forall query, e <> Query query) evs).

Lemma noQuery_refl c : noQuery c c.
Proof. split; [done|]. intros _. exists []. by rewrite app_nil_r. Qed.

Lemma noQuery_trans c1 c2 c3 : noQuery c1 c2 -> noQuery c2 c3 -> noQuery c1 c3.
Proof.
  intros [Ha H1] [Ha' H2]. split; [congruence|]. intros Hnone.
  destruct (H1 Hnone) as (evs1 & E1 & F1).
  destruct H2 as (evs2 & E2 & F2); [congruence|].
  exists (evs1 ++ evs2). rewrite E2, E1, <- app_assoc. split; [done|].
  by apply Forall_app.
Qed.

Lemma noQuery_emit c e : (forall query, e <> Query query) -> noQuery c (emit c e).
Proof. intros He. split; [done|]. intros _. exists [e]. split; [done|]. by constructor. Qed.

Lemma noQuery_same c c' :
  prometheusApi c' = prometheusApi c -> events c' = events c -> noQuery c c'.
Proof.
  intros Ha He. split; [done|]. intros _. exists []. by rewrite app_nil_r.
Qed.

Lemma forEach_updateOnePod_noQuery pods c c' :
  forEach pods (updateOnePod ParseMetricsURL) c = Go.Returned c' -> noQuery c c'.
Proof.
  apply (forEach_updateOnePod_effect ParseMetricsURL noQuery (fun _ => True)).
  - apply noQuery_refl.
  - apply noQuery_trans.
  - intros. by apply noQuery_emit.
  - intros. by apply noQuery_emit.
  - intros c0 query [api Hapi]. split; [done|]. congruence.
  - intros c0 podName _. destruct (ensureRows_frame podName c0) as (Ha & _ & _ & He & _).
    by apply noQuery_same.
  - intros c0 podName modelName metricName metric value c1 err _ _ _ Hrec.
    destruct err as [e|].
    + apply updatePodRecordLocked_failed in Hrec as ->. apply noQuery_refl.
    + apply updatePodRecordLocked_recorded in Hrec as (Ha & _ & _ & He & _).
      by apply noQuery_same.
  - by apply Forall_forall.
Qed.

(** X12: without a Prometheus client a refresh sends no query.  For every
    store whose client is nil the refresh returns and no event it adds is a
    query: the metrics resolved by query are skipped for every ready pod. *)
Theorem updatePodMetrics_no_query_without_client (c : Store) :
  prometheusApi c = None ->
  exists c' evs,
    updatePodMetrics ParseMetricsURL c = Go.Returned c' /\
    prometheusApi c' = None /\
    events c' = events c ++ evs /\
    forall query, Query query ∉ evs.
Proof.
  intros Hnone.
  destruct (updatePodMetrics_trace ParseMetricsURL c) as (c' & body & Hc' & _).
  destruct (updatePodMetrics_loop ParseMetricsURL c c' Hc') as (c1 & Hloop & ->).
  apply forEach_updateOnePod_noQuery in Hloop as [Ha H].
  destruct H as (evs & Hev & Hq); [done|].
  exists (emit c1 Unlock), (Lock :: evs ++ [Unlock]).
  split_and!; [done| simpl in *; congruence | |].
  - simpl in *. rewrite Hev, <- !app_assoc. done.
  - intros query Hin. apply elem_of_cons in Hin as [?|Hin]; [done|].
    apply elem_of_app in Hin as [Hin|Hin].
    + eapply Forall_forall in Hq; [|exact Hin]. by apply (Hq query).
    + apply elem_of_cons in Hin as [?|Hin]; [done|]. by apply elem_of_nil in Hin.
Qed.

End RefreshTheorems.

Lemma updatePodMetrics_no_query_without_client_witness :
  cache.prometheusApi Example.store = None /\
  exists c' evs,
    cache.updatePodMetrics (P := Example.package) Example.scrape Example.store
      = Go.Returned c' /\
    cache.prometheusApi c' = None /\
    cache.events c' = cache.events Example.store ++ evs /\
    forall query, cache.Query query ∉ evs.
Proof.
  split; [reflexivity|].
  apply (updatePodMetrics_no_query_without_client (P := Example.package)
           Example.scrape Example.store).
  reflexivity.
Defined.

(** ** The rest of the refresh tick *)

Section ModelMetrics.
Import cache.
Context {P : Package}.
Variable ParseMetricsURL : string -> gmap string MetricFamily * option string.

(** [updateModelMetrics]: [c.mu.Lock(); defer c.mu.Unlock()], and the line
    about the client that is not there; the function does nothing else. *)
Definition updateModelMetrics (c : Store) : Store :=
  let c := emit c Lock in
  let c :=
    match prometheusApi c with
    | None => emit c prometheusSkipped
    | Some _ => c
    end in
  emit c Unlock.

(** The line [updateModelMetrics] writes for the store. *)
Definition skippedLine (c : Store) : list event :=
  match prometheusApi c with
  | None => [prometheusSkipped]
  | Some _ => []
  end.

Lemma updateModelMetrics_events c :
  events (updateModelMetrics c) = events c ++ Lock :: skippedLine c ++ [Unlock].
Proof.
  unfold updateModelMetrics, skippedLine. simpl.
  destruct (prometheusApi c); simpl; by rewrite <- ?app_assoc.
Qed.

(** X13: the second call of a tick of the refresh loop.  updateModelMetrics
    writes no table: the client, the pods, the mapping, PodMetrics and
    PodModelMetrics are as before, with or without a Prometheus client, and
    it sends no query; it takes the lock, logs that the client is missing
    when it is, and releases the lock.  After updatePodMetrics the lock is
    so taken a second time: the trace of the two calls is two lock sections
    one after the other, the scrapes all in the first. *)
Theorem updateModelMetrics_writes_nothing (c : Store) :
  prometheusApi (updateModelMetrics c) = prometheusApi c /\
  Pods (updateModelMetrics c) = Pods c /\
  PodToModelMapping (updateModelMetrics c) = PodToModelMapping c /\
  PodMetrics (updateModelMetrics c) = PodMetrics c /\
  PodModelMetrics (updateModelMetrics c) = PodModelMetrics c /\
  events (updateModelMetrics c) = events c ++ Lock :: skippedLine c ++ [Unlock] /\
  (forall query, Query query ∉ skippedLine c) /\
  exists c1 body,
    updatePodMetrics ParseMetricsURL c = Go.Returned c1 /\
    events (updateModelMetrics c1) =
      events c ++ (Lock :: body ++ [Unlock]) ++ (Lock :: skippedLine c ++ [Unlock]) /\
    Forall (fun e => ~ lockOp e) body /\
    scrapes body = metricsURL <$> FilterReadyPods (Pods c) /\
    PodMetrics (updateModelMetrics c1) = PodMetrics c1 /\
    PodModelMetrics (updateModelMetrics c1) = PodModelMetrics c1.
Proof.
  split_and!;
    try (unfold updateModelMetrics; simpl; by destruct (prometheusApi c) eqn:?).
  - apply updateModelMetrics_events.
  - intros query. unfold skippedLine. destruct (prometheusApi c).
    + apply not_elem_of_nil.
    + intros [?|Hin]%elem_of_cons; [done | by apply elem_of_nil in Hin].
  - destruct (updatePodMetrics_trace ParseMetricsURL c)
      as (c1 & body & Hc1 & Hev & Hlock & Hscrapes).
    exists c1, body.
    destruct (updatePodMetrics_refreshEffect ParseMetricsURL c c1 Hc1) as (Ha & _).
    split_and!; try done;
      try (unfold updateModelMetrics; simpl; by destruct (prometheusApi c1) eqn:?).
    rewrite updateModelMetrics_events, Hev. unfold skippedLine. rewrite Ha.
    by rewrite <- !app_assoc.
Qed.

End ModelMetrics.

(** ** The subscriptions *)

Section AggregateMetrics.

(** [metrics.MetricSubscriber] with its method [SubscribedMetrics], and the
    values of [map[string]any] with the string ["yes"] among them. *)
Variable MetricSubscriber : Type.
Variable SubscribedMetrics : MetricSubscriber -> list string.
Variable any : Type.
Variable yes : any.

(** [for _, x := range l { body }] over a state, a panic ending the loop. *)
Fixpoint rangeOver {A S} (l : list A) (body : A -> S -> Go.outcome S) (s : S)
    : Go.outcome S :=
  match l with
  | [] => Go.Returned s
  | x :: rest => s' ← body x s; rangeOver rest body s'
  end.

(** The body of the inner loop on the field [metrics]; [None] is the nil
    map, which can be read and cannot be written. *)
Definition subscribe (metric : string) (metrics : option (gmap string any))
    : Go.outcome (option (gmap string any)) :=
  match metrics with
  | None => Go.Panicked cache.nilMapAssignment
  | Some m =>
      if decide (is_Some (m !! metric)) then Go.Returned (Some m)
      else Go.Returned (Some (<[metric := yes]> m))
  end.

(** [aggregateMetrics] on the fields [subscribers] and [metrics] of the
    store. *)
Definition aggregateMetrics (subscribers : list MetricSubscriber)
    (metrics : option (gmap string any)) : Go.outcome (option (gmap string any)) :=
  rangeOver subscribers
    (fun subscriber => rangeOver (SubscribedMetrics subscriber) subscribe) metrics.

(** All the metrics subscribed to, in the order of the two loops. *)
Definition subscribed (subscribers : list MetricSubscriber) : list string :=
  subscribers ≫= SubscribedMetrics.

Definition addMetric (m : gmap string any) (metric : string) : gmap string any :=
  if decide (is_Some (m !! metric)) then m else <[metric := yes]> m.

Lemma rangeOver_subscribe l m :
  rangeOver l subscribe (Some m) = Go.Returned (Some (foldl addMetric m l)).
Proof.
  revert m. induction l as [|k l IH]; intros m; simpl; [done|].
  unfold addMetric at 2. case_decide; simpl; apply IH.
Qed.

Lemma aggregateMetrics_foldl subscribers m :
  aggregateMetrics subscribers (Some m) =
  Go.Returned (Some (foldl addMetric m (subscribed subscribers))).
Proof.
  unfold aggregateMetrics, subscribed. revert m.
  induction subscribers as [|s subscribers IH]; intros m; simpl; [done|].
  rewrite rangeOver_subscribe. simpl. rewrite IH. by rewrite foldl_app.
Qed.

Lemma addMetric_lookup m metric k :
  addMetric m metric !! k =
  match m !! k with
  | Some v => Some v
  | None => if decide (k = metric) then Some yes else None
  end.
Proof.
  unfold addMetric. case_decide as Hin.
  - destruct (m !! k) eqn:Hk; [done|]. case_decide as Hkm; [|done].
    subst. rewrite Hk in Hin. by destruct Hin.
  - destruct (decide (k = metric)) as [->|Hne].
    + rewrite lookup_insert_eq. destruct (m !! metric) eqn:Hk; [|done].
      destruct Hin. by eexists.
    + rewrite lookup_insert_ne by done. by destruct (m !! k).
Qed.

Lemma foldl_addMetric_lookup l m k :
  foldl addMetric m l !! k =
  match m !! k with
  | Some v => Some v
  | None => if decide (k ∈ l) then Some yes else None
  end.
Proof.
  revert m. induction l as [|metric l IH]; intros m; cbn [foldl].
  { destruct (m !! k); [done|]. case_decide as Hin; [|done].
    by apply elem_of_nil in Hin. }
  rewrite IH, addMetric_lookup. destruct (m !! k) as [v|]; [done|].
  destruct (decide (k = metric)) as [->|Hne].
  - rewrite decide_True; [done | by left].
  - destruct (decide (k ∈ l)) as [Hin|Hin].
    + rewrite decide_True; [done | by right].
    + rewrite decide_False; [done|].
      intros [?|?]%elem_of_cons; done.
Qed.

Lemma rangeOver_subscribe_nil l :
  rangeOver l subscribe None =
  match l with
  | [] => Go.Returned None
  | _ :: _ => Go.Panicked cache.nilMapAssignment
  end.
Proof. by destruct l. Qed.

Lemma aggregateMetrics_nil subscribers :
  aggregateMetrics subscribers None =
  match subscribed subscribers with
  | [] => Go.Returned None
  | _ :: _ => Go.Panicked cache.nilMapAssignment
  end.
Proof.
  unfold aggregateMetrics, subscribed.
  induction subscribers as [|s subscribers IH]; simpl; [done|].
  rewrite rangeOver_subscribe_nil. destruct (SubscribedMetrics s); simpl; [|done].
  apply IH.
Qed.

(** X14: aggregateMetrics on a map that has been made.  It returns; the keys
    after are the keys before and the subscribed metrics; an entry that was
    there keeps its value, whatever it is; a subscribed metric that was not
    there has the value "yes"; and a second run changes nothing.  On the nil
    map, which a store made by New still has, the call returns as long as no
    subscriber subscribes to a metric, and panics on the first metric
    otherwise. *)
Theorem aggregateMetrics_adds_subscribed (subscribers : list MetricSubscriber) :
  (forall m : gmap string any,
     exists m',
       aggregateMetrics subscribers (Some m) = Go.Returned (Some m') /\
       dom m' = dom m ∪ list_to_set (subscribed subscribers) /\
       (forall k v, m !! k = Some v -> m' !! k = Some v) /\
       (forall k, k ∈ subscribed subscribers -> m !! k = None -> m' !! k = Some yes) /\
       aggregateMetrics subscribers (Some m') = Go.Returned (Some m')) /\
  (subscribed subscribers = [] ->
   aggregateMetrics subscribers None = Go.Returned None) /\
  (subscribed subscribers <> [] ->
   aggregateMetrics subscribers None = Go.Panicked cache.nilMapAssignment).
Proof.
  split_and!.
  - intros m. exists (foldl addMetric m (subscribed subscribers)).
    split_and!.
    + apply aggregateMetrics_foldl.
    + apply set_eq. intros k.
      rewrite elem_of_union, !elem_of_dom, elem_of_list_to_set, foldl_addMetric_lookup.
      destruct (m !! k) as [v|].
      * split; [intros _; by left | by eexists].
      * case_decide as Hin.
        -- split; [intros _; by right | by eexists].
        -- split; [by intros [? [=]] | intros [[? [=]]|?]; done].
    + intros k v Hk. by rewrite foldl_addMetric_lookup, Hk.
    + intros k Hin Hk. rewrite foldl_addMetric_lookup, Hk. by rewrite decide_True.
    + rewrite aggregateMetrics_foldl. do 2 f_equal. apply map_eq. intros k.
      rewrite !foldl_addMetric_lookup.
      destruct (m !! k) as [v|]; [done|]. by case_decide.
  - intros Hnone. by rewrite aggregateMetrics_nil, Hnone.
  - intros Hsome. rewrite aggregateMetrics_nil.
    by destruct (subscribed subscribers).
Qed.

End AggregateMetrics.

(** ** The tick of the trace-persistence loop *)

Section TraceTick.
Import time cache.

Variable RequestTraceWriteInterval : Duration.

(** [roundT := t - t%int64(RequestTraceWriteInterval/time.Second)] in int64:
    the quotient and the remainder truncate towards zero, and a remainder
    by zero panics. *)
Definition roundT (t : Z) : Go.outcome Z :=
  let step := Z.quot RequestTraceWriteInterval Second in
  if decide (step = 0) then Go.Panicked "integer divide by zero"
  else Go.Returned (Go.wrap64 (t - Z.rem t step)).

(** One tick of the ticker, at the Unix time [nowUnix] in seconds: nothing
    when no request was traced, otherwise the time
    [writeRequestTraceToStorage] is called with. *)
Definition traceTick (numRequestsTraces nowUnix : Z) : Go.outcome (option Z) :=
  if decide (numRequestsTraces = 0) then Go.Returned None
  else r ← roundT nowUnix; Go.Returned (Some r).

End TraceTick.

Section TraceTickFacts.
Import time cache.

Lemma roundT_multiple (interval t : Z) :
  Second <= interval ->
  Go.minInt64 <= t <= Go.maxInt64 ->
  roundT interval t =
    Go.Returned (Z.quot interval Second * Z.quot t (Z.quot interval Second)) /\
  0 < Z.quot interval Second.
Proof.
  intros Hint Ht. unfold roundT. cbv zeta.
  assert (0 < Z.quot interval Second) as Hstep.
  { rewrite Z.quot_div_nonneg by (unfold Second in *; lia).
    apply Z.div_str_pos. unfold Second in *. lia. }
  split; [|done].
  rewrite decide_False by lia. f_equal.
  pose proof (Z.quot_rem' t (Z.quot interval Second)) as Hqr.
  assert (Go.minInt64 <= t - Z.rem t (Z.quot interval Second) <= Go.maxInt64) as Hin.
  { destruct (Z.le_gt_cases 0 t) as [Hpos|Hneg].
    - pose proof (Z.rem_le t _ Hpos Hstep).
      pose proof (Z.rem_nonneg t (Z.quot interval Second) ltac:(lia) Hpos).
      unfold Go.minInt64, Go.maxInt64 in *. lia.
    - pose proof (Z.rem_nonpos t (Z.quot interval Second) ltac:(lia) ltac:(lia)).
      pose proof (Z.rem_le (- t) _ ltac:(lia) Hstep) as Hle.
      rewrite Z.rem_opp_l' in Hle.
      unfold Go.minInt64, Go.maxInt64 in *. lia. }
  rewrite wrap64_small by done. lia.
Qed.

(** X15: the time a trace is written under.  With a write interval of at
    least a second and a request traced, the tick calls the write with a
    multiple of the interval's whole seconds that lies between 0 and the
    current Unix time, less than one such step away from it; with no request
    traced it writes nothing, whatever the interval.  When the interval is a
    whole number of seconds, the time written under, in nanoseconds, is the
    start of the write interval the current time lies in: the current time
    less its offset, the boundary initTraceCache aligns its ticker to. *)
Theorem traceTick_rounds_to_interval_start (interval numRequestsTraces t : Z) :
  Second <= interval ->
  Go.minInt64 <= t <= Go.maxInt64 ->
  numRequestsTraces <> 0 ->
  traceTick interval 0 t = Go.Returned None /\
  exists r,
    traceTick interval numRequestsTraces t = Go.Returned (Some r) /\
    r mod (Z.quot interval Second) = 0 /\
    (0 <= t -> 0 <= r <= t /\ t < r + Z.quot interval Second) /\
    (t <= 0 -> t <= r <= 0 /\ r - Z.quot interval Second < t) /\
    (forall nowUnixNano,
       interval = Z.quot interval Second * Second ->
       0 <= nowUnixNano -> t = nowUnixNano / Second ->
       r * Second = nowUnixNano - tickerOffset interval nowUnixNano).
Proof.
  intros Hint Ht Hn. split; [done|].
  destruct (roundT_multiple interval t Hint Ht) as [Hr Hstep].
  set (step := Z.quot interval Second) in *.
  exists (step * Z.quot t step). unfold traceTick.
  rewrite decide_False by done. rewrite Hr. simpl.
  pose proof (Z.quot_rem' t step) as Hqr.
  split_and!; [done | | | |].
  - rewrite Z.mul_comm. apply Z.mod_mul. lia.
  - intros Hpos.
    pose proof (Z.rem_bound_pos t step Hpos Hstep).
    pose proof (Z.rem_le t step Hpos Hstep). lia.
  - intros Hneg.
    pose proof (Z.rem_bound_pos_neg t step Hstep Hneg).
    pose proof (Z.rem_le (- t) step ltac:(lia) Hstep) as Hle.
    rewrite Z.rem_opp_l' in Hle. lia.
  - intros nowUnixNano Hwhole Hnow ->.
    unfold tickerOffset. rewrite Z.rem_mod_nonneg by (unfold Second in *; lia).
    assert (0 <= nowUnixNano / Second) as Hsec
      by (apply Z.div_pos; unfold Second; lia).
    rewrite Hwhole at 1.
    rewrite (Z.mul_comm step Second), Z.rem_mul_r by (unfold Second; lia).
    rewrite Z.rem_mod_nonneg in Hqr by lia.
    pose proof (Z_div_mod_eq_full nowUnixNano Second). lia.
Qed.

Lemma traceTick_rounds_to_interval_start_witness :
  traceTick (10 * Second) 0 1234567 = Go.Returned None /\
  exists r,
    traceTick (10 * Second) 3 1234567 = Go.Returned (Some r) /\
    r mod (Z.quot (10 * Second) Second) = 0 /\
    (0 <= 1234567 -> 0 <= r <= 1234567 /\ 1234567 < r + Z.quot (10 * Second) Second) /\
    (1234567 <= 0 -> 1234567 <= r <= 0 /\ r - Z.quot (10 * Second) Second < 1234567) /\
    (forall nowUnixNano,
       10 * Second = Z.quot (10 * Second) Second * Second ->
       0 <= nowUnixNano -> 1234567 = nowUnixNano / Second ->
       r * Second = nowUnixNano - tickerOffset (10 * Second) nowUnixNano).
Proof.
  apply (traceTick_rounds_to_interval_start (10 * Second) 3 1234567).
  - unfold Second. lia.
  - unfold Go.minInt64, Go.maxInt64. lia.
  - lia.
Defined.

End TraceTickFacts.

(** ** The Prometheus client of the store *)

Section PrometheusClient.
Import cache.
Context {P : Package}.
Variable ParseMetricsURL : string -> gmap string MetricFamily * option string.

(** [metrics.InitializePrometheusAPI(endpoint, username, password)] is not
    among the sources: the client or the error it returns. *)
Variable InitializePrometheusAPI : string -> string -> string -> PrometheusAPI + string.

(** The two lines [initPrometheusAPI] can write. *)
Inductive klogLine :=
| Errorf (message : string) (args : list logarg)
| Infof (message : string) (args : list logarg).

(** [initPrometheusAPI]: the client, nil when there is no endpoint or when
    the initialisation fails, and the line written. *)
Definition initPrometheusAPI (env : string -> option string)
    : option PrometheusAPI * list klogLine :=
  let prometheusEndpoint := utils.LoadEnv env "PROMETHEUS_ENDPOINT" "" in
  let prometheusBasicAuthUsername :=
    utils.LoadEnv env "PROMETHEUS_BASIC_AUTH_USERNAME" "" in
  let prometheusBasicAuthPassword :=
    utils.LoadEnv env "PROMETHEUS_BASIC_AUTH_PASSWORD" "" in
  if decide (prometheusEndpoint ≠ "") then
    match InitializePrometheusAPI prometheusEndpoint prometheusBasicAuthUsername
            prometheusBasicAuthPassword with
    | inr err => (None, [Errorf "Error initializing Prometheus API: %v" [AStr err]])
    | inl api => (Some api, [Infof "Prometheus API initialized successfully" []])
    end
  else (None, []).

Lemma updatePodMetrics_noQuery c :
  prometheusApi c = None ->
  exists c' evs,
    updatePodMetrics ParseMetricsURL c = Go.Returned c' /\
    events c' = events c ++ evs /\
    Forall (fun e => forall query, e <> Query query) evs.
Proof.
  intros Hnone.
  destruct (updatePodMetrics_trace ParseMetricsURL c) as (c' & body & Hc' & _).
  destruct (updatePodMetrics_loop ParseMetricsURL c c' Hc') as (c1 & Hloop & ->).
  apply forEach_updateOnePod_noQuery in Hloop as [Ha H].
  destruct H as (evs & Hev & Hq); [done|].
  exists (emit c1 Unlock), (Lock :: evs ++ [Unlock]).
  split_and!; [done| |].
  - simpl in *. rewrite Hev, <- !app_assoc. done.
  - constructor; [done|]. apply Forall_app. split; [done|]. by constructor.
Qed.

(** X16: the client Init gives the store.  initPrometheusAPI returns a nil
    client exactly when the endpoint read from PROMETHEUS_ENDPOINT is empty
    or the initialisation returns an error; with an empty endpoint the
    initialisation is not called and nothing is logged, otherwise exactly
    one line is, an error line exactly when the client is nil.  New keeps
    the client it is given, and a store holding a nil client of
    initPrometheusAPI sends no query in a refresh, whatever pods it holds. *)
Theorem initPrometheusAPI_nil_client (env : string -> option string) :
  let endpoint := utils.LoadEnv env "PROMETHEUS_ENDPOINT" "" in
  let client := (initPrometheusAPI env).1 in
  (client = None <->
   endpoint = "" \/
   exists err,
     InitializePrometheusAPI endpoint
       (utils.LoadEnv env "PROMETHEUS_BASIC_AUTH_USERNAME" "")
       (utils.LoadEnv env "PROMETHEUS_BASIC_AUTH_PASSWORD" "") = inr err) /\
  (endpoint = "" -> initPrometheusAPI env = (None, [])) /\
  (endpoint <> "" ->
   exists line, (initPrometheusAPI env).2 = [line] /\
                (client = None <-> exists message args, line = Errorf message args)) /\
  prometheusApi (New client) = client /\
  (forall c,
     prometheusApi c = client -> client = None ->
     exists c' evs,
       updatePodMetrics ParseMetricsURL c = Go.Returned c' /\
       events c' = events c ++ evs /\
       Forall (fun e => forall query, e <> Query query) evs).
Proof.
  intros endpoint client. subst endpoint client. unfold initPrometheusAPI. cbv zeta.
  split_and!.
  - case_decide as Hend.
    + destruct (InitializePrometheusAPI _ _ _) as [api|err]; simpl.
      * split; [done | by intros [?|[? [=]]]].
      * split; [intros _; right; by eexists | done].
    + simpl. split; [intros _; by left | done].
  - intros Hend. by rewrite decide_False by (by intros ?).
  - intros Hend. rewrite decide_True by done.
    destruct (InitializePrometheusAPI _ _ _) as [api|err]; simpl; eexists; (split; [done|]).
    + split; [done | by intros (? & ? & [=])].
    + split; [intros _; by eexists _, _ | done].
  - done.
  - intros c Hc Hnil. apply updatePodMetrics_noQuery. congruence.
Qed.

End PrometheusClient.

(** ** The ticker of the refresh loop *)

Section RefreshTicker.
Import time cache.

(** X17: when the refresh loop starts its ticker.  With the variable unset
    or empty, or holding no integer or one that is not positive, the ticker
    of initMetricsCache has the default period of 50ms; with a positive
    integer n of at most 9223372036854 its period is n milliseconds; and
    whatever the variable holds, initMetricsCache returns a ticker exactly
    when the interval computed is positive, with that interval as its period,
    and panics otherwise. *)
Theorem initMetricsCache_ticker (value : option string) :
  (value = None \/ value = Some "" ->
   initMetricsCache (refreshEnv value) = Go.Returned (50 * Millisecond)) /\
  (forall s, value = Some s -> s <> "" ->
     (strconv.Atoi s = None \/ exists n, strconv.Atoi s = Some n /\ n <= 0) ->
     initMetricsCache (refreshEnv value) = Go.Returned (50 * Millisecond)) /\
  (forall s n, value = Some s -> strconv.Atoi s = Some n ->
     0 < n <= 9223372036854 ->
     initMetricsCache (refreshEnv value) = Go.Returned (n * Millisecond)) /\
  (forall d, initMetricsCache (refreshEnv value) = Go.Returned d <->
     d = (getPodMetricRefreshInterval (refreshEnv value)).1 /\ 0 < d) /\
  ((exists msg, initMetricsCache (refreshEnv value) = Go.Panicked msg) <->
   (getPodMetricRefreshInterval (refreshEnv value)).1 <= 0).
Proof.
  destruct (getPodMetricRefreshInterval_spec value) as (Hunset & Hvalid & Hinvalid).
  unfold initMetricsCache, NewTicker. split_and!.
  - intros H. by rewrite (Hunset H).
  - intros s Hs Hne Hbad. by rewrite (Hinvalid s Hs Hne Hbad).
  - intros s n Hs Hn [Hpos Hmax]. rewrite (Hvalid s n Hs Hn Hpos Hmax).
    rewrite decide_False; [done|]. unfold Millisecond. lia.
  - intros d. case_decide as Hd.
    + split; [done | intros [-> ?]; lia].
    + split; [intros [= <-]; split; [done | lia] | by intros [-> _]].
  - case_decide as Hd.
    + split; [done | by eexists].
    + split; [by intros [? [=]] | done].
Qed.

End RefreshTicker.

(** ** The metric of one container *)

Section ContainerMetric.
Import time metrics.

(** [PodMetricsInfo] is not among the sources; the function only returns
    its nil value. *)
Variable PodMetricsInfo : Type.

(** [GetPodContainerMetric]; [now] is what [time.Now()] reads after the
    fetch. *)
Definition GetPodContainerMetric (c : PodMetricClient) (pod : corev1.Pod)
    (metricName : string) (metricPort : Z) (now : Time)
    : option PodMetricsInfo * Time * option error :=
  match fetcher c pod metricPort metricName with
  | inr err => (None, now, Some err)
  | inl _ => (None, now, None)
  end.

(** X18: GetPodContainerMetric returns no metric.  For every client, pod,
    metric and port the info returned is nil, also when the fetch succeeds:
    the value fetched is dropped, so two fetchers that fail on the same
    inputs with the same errors give the same result; the time returned is
    the time read; and the error is the error of the fetch, the one
    GetMetricsFromPods returns for the pod alone. *)
Theorem GetPodContainerMetric_returns_no_metric (c : PodMetricClient)
    (pod : corev1.Pod) (metricName : string) (metricPort : Z) (now : Time) :
  let r := GetPodContainerMetric c pod metricName metricPort now in
  r.1.1 = None /\
  r.1.2 = now /\
  (forall err, r.2 = Some err <-> fetcher c pod metricPort metricName = inr err) /\
  (r.2 = None <-> exists v, fetcher c pod metricPort metricName = inl v) /\
  r.2 = (GetMetricsFromPods c [pod] metricName metricPort).2 /\
  (forall c' : PodMetricClient,
     (forall err, fetcher c' pod metricPort metricName = inr err <->
                  fetcher c pod metricPort metricName = inr err) ->
     GetPodContainerMetric c' pod metricName metricPort now = r).
Proof.
  intros r. subst r. unfold GetPodContainerMetric, GetMetricsFromPods. simpl.
  destruct (fetcher c pod metricPort metricName) as [v|err] eqn:Hc; simpl.
  - split_and!; try done.
    + split; [intros _; by eexists | done].
    + intros c' Hsame. destruct (fetcher c' pod metricPort metricName) as [v'|err'] eqn:Hc';
        [done|]. by pose proof (proj1 (Hsame err') eq_refl).
  - split_and!; try done.
    + intros err'. split; congruence.
    + split; [done | by intros [? [=]]].
    + intros c' Hsame. by rewrite (proj2 (Hsame err) eq_refl).
Qed.

End ContainerMetric.
